(** * Glass Box Planner: the adjacency and compatibility-scoring engine

    A shallow embedding of [src/analysis_engine.py] ([run_analysis] and
    [generate_reports]) and the properties of its specification.

    - Tables are lists of rows, as pandas orders them.  A parcel row
      carries its geometry and its attribute cells in column order; a
      [GeoDataFrame] adds the header and the CRS.  The three left merges of
      the engine are one generic [merge_left].
    - The geometry library (buffering, the intersection predicate of the
      spatial join, UTM estimation and re-projection) is an interface,
      [Geometry]; parcels on a line, with intervals as shapes, give an
      instance on which whole runs are evaluated.
    - Matrix scores are rationals.  They stand for the numeric cells that
      [read_csv] parsed; comparison, minimum and the integrality test of the
      final cast are exact on floats, and integers up to 2^53 are floats.
      Statements about the value of a score assume such integers.
    - The lookup merge checks the dtypes of its keys before it joins, and
      raises [ValueError] for string classes against numeric labels:
      [scoring_stage] is the stage with that check, [score_parcels] what it
      does once the keys are accepted.  [DataFrame.stack] differs between
      pandas releases in the rows of blank cells; [Pandas] carries the
      difference, and every statement holds for both.
    - A run is a function from what the loaders returned to a log of what
      the run printed and did, and an outcome: aborted on a fatal error,
      raised, or completed with the scored table and the two reports. *)

From Stdlib Require Import List String ZArith QArith Bool Lia.
From Stdlib Require Import Sorted Permutation.
Import ListNotations.

Local Open Scope string_scope.
Local Open Scope list_scope.
Local Open Scope Z_scope.

(* ================================================================== *)
(** ** Cell values *)

(** An attribute cell: missing (NaN / None), an integer or a string. *)
Inductive value : Type :=
| VNull
| VInt (z : Z)
| VStr (s : string).

(** Key equality of the relational joins; pandas matches missing keys with
    missing keys. *)
Definition value_eqb (a b : value) : bool :=
  match a, b with
  | VNull, VNull => true
  | VInt x, VInt y => Z.eqb x y
  | VStr s, VStr t => String.eqb s t
  | _, _ => false
  end.

(** The elementwise [!=] of two columns: a missing operand compares
    unequal to everything. *)
Definition value_neb (a b : value) : bool :=
  match a, b with
  | VNull, _ | _, VNull => true
  | _, _ => negb (value_eqb a b)
  end.

Definition notnull (v : value) : bool :=
  match v with VNull => false | _ => true end.

(** The order in which pandas sorts group keys; integers are put before
    strings (a column normally holds one of the two). *)
Definition value_leb (a b : value) : bool :=
  match a, b with
  | VNull, _ => true
  | _, VNull => false
  | VInt x, VInt y => Z.leb x y
  | VInt _, VStr _ => true
  | VStr _, VInt _ => false
  | VStr s, VStr t => String.leb s t
  end.

(* ================================================================== *)
(** ** Generic table helpers *)

Section Tables.
Context {A B C : Type}.

(** [pd.merge(left, right, how='left')]: every left row once per matching
    right row, in right order, or once with missing right cells. *)
Definition merge_left (on : A -> B -> bool) (found : A -> B -> C)
           (missing : A -> C) (left : list A) (right : list B) : list C :=
  flat_map (fun a =>
              match filter (on a) right with
              | [] => [missing a]
              | bs => map (found a) bs
              end) left.

(** Insertion sort for [sort_index], [sorted] and the sorted group keys. *)
Fixpoint insert_by (leb : A -> A -> bool) (x : A) (l : list A) : list A :=
  match l with
  | [] => [x]
  | y :: t => if leb x y then x :: y :: t else y :: insert_by leb x t
  end.

Fixpoint sort_by (leb : A -> A -> bool) (l : list A) : list A :=
  match l with
  | [] => []
  | x :: t => insert_by leb x (sort_by leb t)
  end.

(** The distinct entries of a column, first occurrences kept. *)
Fixpoint distinct (eqb : A -> A -> bool) (l : list A) : list A :=
  match l with
  | [] => []
  | x :: t => x :: filter (fun y => negb (eqb x y)) (distinct eqb t)
  end.
End Tables.

(** Python's [range(a, a + n)] as a column of integers. *)
Definition range (a : Z) (n : nat) : list Z :=
  map (fun i => a + Z.of_nat i) (seq 0 n).

(* ================================================================== *)
(** ** Exceptions *)

Inductive exception : Type :=
| ValueError  (* pd.merge on a string key column and a numeric one *)
| TypeError   (* astype('Int64') on a non-integral float *)
| KeyError.   (* gdf['compat_score'] when the merge had to suffix it *)

Inductive exc (A : Type) : Type :=
| Ok (a : A)
| Raise (e : exception).
Arguments Ok {A} a.
Arguments Raise {A} e.

Definition bind {A B : Type} (m : exc A) (k : A -> exc B) : exc B :=
  match m with
  | Ok a => k a
  | Raise e => Raise e
  end.

Notation "x <- m ;; k" := (bind m (fun x => k))
  (at level 61, m at next level, right associativity).

Fixpoint traverse {A B : Type} (f : A -> exc B) (l : list A) : exc (list B) :=
  match l with
  | [] => Ok []
  | a :: t => b <- f a ;; bs <- traverse f t ;; Ok (b :: bs)
  end.

(* ================================================================== *)
(** ** Output names *)

(** Lines 119 to 123 of [run_analysis]: the base name of the outputs.  A
    [base_name] that is [None] or empty is falsy; [stem] is the stem of the
    parcels path and [parcels_exist] whether that path exists. *)
Definition choose_base (base_name : option string) (parcels_exist : bool)
           (stem : string) : string :=
  match base_name with
  | Some (String a rest) => String a rest
  | _ => if parcels_exist && negb (String.eqb stem "")
         then stem else "Qazvin_processed"
  end.

(** The names of the three files of a run (lines 125, 82 and 94), inside
    the output directory. *)
Record OutputNames : Type := {
  geopackage_name : string;
  overall_name : string;
  detailed_name : string
}.

Definition output_names (base : string) : OutputNames :=
  {| geopackage_name := base ++ ".gpkg";
     overall_name := base ++ "_overall_summary.csv";
     detailed_name := base ++ "_detailed_breakdown.csv" |}.

(* ================================================================== *)
(** ** The geometry library *)

(** What the engine uses of geopandas/shapely: [GeoSeries.buffer], the
    [intersects] predicate of [sjoin], [estimate_utm_crs] and [to_crs].
    [projectable] tells the geometries on which the last two succeed
    (coordinates that are degrees of a UTM zone); on others the library
    raises an error of its own, which the engine does not catch. *)
Class Geometry : Type := {
  shape : Type;
  distance : Type;
  buffer : shape -> distance -> shape;
  intersects : shape -> shape -> bool;
  projectable : list shape -> bool;
  estimate_utm_crs : list shape -> string;
  to_crs : string -> shape -> shape
}.

(** Parcels on a line: a shape is a closed interval [(lo, hi)], empty when
    [hi < lo]; a negative distance erodes. Re-projection rescales degrees to
    metres, for longitudes of UTM zone 39 (48 to 54 degrees east). *)
Definition interval_buffer (g : Z * Z) (d : Z) : Z * Z :=
  if snd g <? fst g then g else (fst g - d, snd g + d).

Definition interval_intersects (a b : Z * Z) : bool :=
  (fst a <=? snd a) && (fst b <=? snd b) &&
  (fst a <=? snd b) && (fst b <=? snd a).

Definition interval_to_crs (_ : string) (g : Z * Z) : Z * Z :=
  (fst g * 111320, snd g * 111320).

Definition interval_projectable (l : list (Z * Z)) : bool :=
  match l with
  | [] => false
  | _ => forallb (fun g => (48 <=? fst g) && (snd g <=? 54)) l
  end.

#[local] Instance interval_geometry : Geometry := {|
  shape := Z * Z;
  distance := Z;
  buffer := interval_buffer;
  intersects := interval_intersects;
  projectable := interval_projectable;
  estimate_utm_crs := fun _ => "EPSG:32639";
  to_crs := interval_to_crs
|}.

(* ================================================================== *)
(** ** The table library *)

(** The one behaviour of pandas that the engine's result tables depend on
    and that differs between releases: [DataFrame.stack] keeps the row of
    a blank cell, with a missing score (pandas 3), or drops it (earlier
    releases). *)
Class Pandas : Type := {
  stack_keeps_blank : bool
}.

#[local] Instance pandas_3 : Pandas := {| stack_keeps_blank := true |}.

(** The dtype of a column as pandas infers it from the values: [object]
    when the column holds a string, numeric otherwise. *)
Definition is_str (v : value) : bool :=
  match v with VStr _ => true | _ => false end.

Definition is_int (v : value) : bool :=
  match v with VInt _ => true | _ => false end.

Definition object_dtype (column : list value) : bool := existsb is_str column.

(** [lib.infer_dtype] of the keys of an object column is "string" or
    "mixed" unless an integer is among them. *)
Definition string_like (keys : list value) : bool :=
  negb (existsb is_int keys).

Definition nonempty {A : Type} (l : list A) : bool :=
  match l with [] => false | _ => true end.

(** The key check of [pd.merge] ([_maybe_coerce_merge_keys]) for one pair
    of key columns: with keys on both sides, an object column whose keys
    are string-like does not merge with a numeric column.  [left_column]
    and [right_column] are the columns the keys were taken from, which
    fix the dtypes. *)
Definition keys_conflict (left_column left_keys right_column right_keys
                          : list value) : bool :=
  nonempty left_keys && nonempty right_keys &&
  (if object_dtype left_column
   then negb (object_dtype right_column) && string_like left_keys
   else object_dtype right_column && string_like right_keys).

(* ================================================================== *)
(** ** Parcel tables and the compatibility matrix *)

Record CRS : Type := { crs_name : string; is_geographic : bool }.

Section Engine.
Context {geo : Geometry} {pandas : Pandas}.

(** One parcel: its polygon and its attribute cells, in column order. *)
Record Row : Type := {
  geometry : shape;
  cells : list (string * value)
}.

Record GeoDataFrame : Type := {
  crs : option CRS;
  columns : list string;
  rows : list Row
}.

(** Rows and header agree. *)
Definition well_formed (gdf : GeoDataFrame) : bool :=
  forallb (fun r => if list_eq_dec string_dec (map fst (cells r)) (columns gdf)
                    then true else false) (rows gdf).

Fixpoint lookup (c : string) (cs : list (string * value)) : value :=
  match cs with
  | [] => VNull
  | (k, v) :: t => if String.eqb k c then v else lookup c t
  end.

Definition get (c : string) (r : Row) : value := lookup c (cells r).

(** Column assignment overwrites in place or appends. *)
Fixpoint assign (c : string) (v : value) (cs : list (string * value))
  : list (string * value) :=
  match cs with
  | [] => [(c, v)]
  | (k, x) :: t => if String.eqb k c then (k, v) :: t
                   else (k, x) :: assign c v t
  end.

Definition has_column (c : string) (gdf : GeoDataFrame) : bool :=
  existsb (String.eqb c) (columns gdf).

Definition set_cell (c : string) (v : value) (r : Row) : Row :=
  {| geometry := geometry r; cells := assign c v (cells r) |}.

(** [gdf[c] = vals] *)
Definition set_column (c : string) (vals : list value) (gdf : GeoDataFrame)
  : GeoDataFrame :=
  {| crs := crs gdf;
     columns := if has_column c gdf then columns gdf else columns gdf ++ [c];
     rows := map (fun rv => set_cell c (snd rv) (fst rv))
                 (combine (rows gdf) vals) |}.

Definition drop_cell (c : string) (r : Row) : Row :=
  {| geometry := geometry r;
     cells := filter (fun kv => negb (String.eqb (fst kv) c)) (cells r) |}.

(** [gdf.drop(columns=[c])] *)
Definition drop_column (c : string) (gdf : GeoDataFrame) : GeoDataFrame :=
  {| crs := crs gdf;
     columns := filter (fun k => negb (String.eqb k c)) (columns gdf);
     rows := map (drop_cell c) (rows gdf) |}.

(** [gdf.to_crs(gdf.estimate_utm_crs())] *)
Definition reproject (gdf : GeoDataFrame) : GeoDataFrame :=
  let utm := estimate_utm_crs (map geometry (rows gdf)) in
  {| crs := Some {| crs_name := utm; is_geographic := false |};
     columns := columns gdf;
     rows := map (fun r => {| geometry := to_crs utm (geometry r);
                              cells := cells r |}) (rows gdf) |}.

(** The matrix as [read_csv(..., index_col=0)] gives it: row labels,
    column labels, and the cells line by line; [None] is a blank cell. *)
Record Matrix : Type := {
  row_labels : list value;
  header : list value;
  data : list (list (option Q))
}.

(* ---------------------------------------------------------------- *)
(** *** Section 3 of [run_analysis]: adjacency *)

Definition ensure_unique_id (gdf : GeoDataFrame) : GeoDataFrame :=
  if has_column "unique_id" gdf then gdf
  else set_column "unique_id"
         (map VInt (range 0 (List.length (rows gdf)))) gdf.

(** [gdf_buffered]: a copy whose geometry is buffered. *)
Definition buffered (gdf : GeoDataFrame) (d : distance) : GeoDataFrame :=
  {| crs := crs gdf;
     columns := columns gdf;
     rows := map (fun r => {| geometry := buffer (geometry r) d;
                              cells := cells r |}) (rows gdf) |}.

(** [gpd.sjoin(left, right, how="inner", predicate="intersects")] *)
Definition sjoin (left right : GeoDataFrame) : list (Row * Row) :=
  flat_map (fun l =>
              map (pair l)
                  (filter (fun r => intersects (geometry l) (geometry r))
                          (rows right)))
           (rows left).

Record AdjacencyPair : Type := {
  unique_id_left : value;
  use_left : value;
  unique_id_right : value
}.

Definition adjacent_pairs (land_use_column : string) (gdf : GeoDataFrame)
           (d : distance) : list AdjacencyPair :=
  let joined := sjoin gdf (buffered gdf d) in
  let kept := filter (fun lr => value_neb (get "unique_id" (fst lr))
                                          (get "unique_id" (snd lr))) joined in
  map (fun lr => {| unique_id_left := get "unique_id" (fst lr);
                    use_left := get land_use_column (fst lr);
                    unique_id_right := get "unique_id" (snd lr) |}) kept.

(* ---------------------------------------------------------------- *)
(** *** Section 4 of [run_analysis]: scoring and aggregation *)

(** [compatibility_matrix.stack().reset_index()]: one row
    [(use_1, use_2, score)] per cell; the row of a blank cell has a
    missing score where [stack] keeps it and is left out where [stack]
    drops it. *)
Definition matrix_long (m : Matrix) : list (value * value * option Q) :=
  flat_map (fun il =>
              flat_map (fun hc =>
                          match snd hc with
                          | Some s => [(fst il, fst hc, Some s)]
                          | None => if stack_keeps_blank
                                    then [(fst il, fst hc, None)] else []
                          end)
                       (combine (header m) (snd il)))
           (combine (row_labels m) (data m)).

(** [(land use, unique_id)] of every parcel, renamed for the right side. *)
Definition right_uses (land_use_column : string) (gdf : GeoDataFrame)
  : list (value * value) :=
  map (fun r => (get land_use_column r, get "unique_id" r)) (rows gdf).

Record UsePair : Type := {
  adj : AdjacencyPair;
  use_right : value
}.

Definition with_right_uses (pairs : list AdjacencyPair)
           (uses : list (value * value)) : list UsePair :=
  merge_left (fun p u => value_eqb (unique_id_right p) (snd u))
             (fun p u => {| adj := p; use_right := fst u |})
             (fun p => {| adj := p; use_right := VNull |})
             pairs uses.

Record ScoredPair : Type := {
  uses : UsePair;
  score : option Q
}.

(** The key check of the vectorised lookup (line 198): the two land-use
    columns of the pair table against [use_1] (the row labels) and [use_2]
    (the column labels).  When it fails [pd.merge] raises [ValueError]. *)
Definition lookup_keys_conflict (land_use_column : string)
           (gdf : GeoDataFrame) (m : Matrix) (d : distance) : bool :=
  let pairs := with_right_uses (adjacent_pairs land_use_column gdf d)
                               (right_uses land_use_column gdf) in
  let long := matrix_long m in
  let land_uses := map (get land_use_column) (rows gdf) in
  keys_conflict land_uses (map (fun p => use_left (adj p)) pairs)
                (row_labels m) (map (fun e => fst (fst e)) long)
  || keys_conflict land_uses (map use_right pairs)
                   (header m) (map (fun e => snd (fst e)) long).

(** The vectorised lookup once its keys are accepted: left keys
    [(use_left, use_right)] against [(use_1, use_2)]; the score of a pair
    is missing when no row matches or the matching row is a blank cell. *)
Definition scored_pairs (pairs : list UsePair)
           (long : list (value * value * option Q)) : list ScoredPair :=
  merge_left (fun p e => value_eqb (use_left (adj p)) (fst (fst e)) &&
                         value_eqb (use_right p) (snd (fst e)))
             (fun p e => {| uses := p; score := snd e |})
             (fun p => {| uses := p; score := None |})
             pairs long.

(** [min] of a group, missing scores skipped; missing when all are. *)
Fixpoint min_skipna (l : list (option Q)) : option Q :=
  match l with
  | [] => None
  | None :: t => min_skipna t
  | Some q :: t =>
      match min_skipna t with
      | None => Some q
      | Some m => Some (if Qle_bool q m then q else m)
      end
  end.

(** [scored_pairs.groupby('unique_id_left')['score'].min()]: one entry per
    distinct non-missing key, keys sorted. *)
Definition final_scores (sp : list ScoredPair) : list (value * option Q) :=
  let keys := sort_by value_leb
                (distinct value_eqb
                   (filter notnull
                      (map (fun p => unique_id_left (adj (uses p))) sp))) in
  map (fun k =>
         (k, min_skipna
               (map score
                    (filter (fun p => value_eqb (unique_id_left (adj (uses p))) k)
                            sp))))
      keys.

(* ---------------------------------------------------------------- *)
(** *** Section 5 of [run_analysis]: finalising *)

(** [gdf.merge(final_scores.rename('compat_score'), left_on='unique_id',
    right_index=True, how='left')]: the merged float column is kept next
    to its row until the cast. *)
Definition merge_scores (gdf : GeoDataFrame) (fs : list (value * option Q))
  : list (Row * option Q) :=
  merge_left (fun r kv => value_eqb (get "unique_id" r) (fst kv))
             (fun r kv => (r, snd kv))
             (fun r => (r, None))
             (rows gdf) fs.

Definition fillna (x : Q) (o : option Q) : Q :=
  match o with Some q => q | None => x end.

(** [astype('Int64')]: only floats that are integers of the 64-bit range
    cast.  The cell is the exact number; the code's column is float64,
    which holds it exactly when it is an integer of magnitude at most
    2^53 ([integral] below), the range the statements about values
    assume. *)
Definition astype_Int64 (q : Q) : exc Z :=
  let r := Qred q in
  if Pos.eqb (Qden r) 1 &&
     (-9223372036854775808 <=? Qnum r) && (Qnum r <? 9223372036854775808)
  then Ok (Qnum r) else Raise TypeError.

(** Lines 173 to 217 once the lookup merge has accepted its keys: from the
    loaded parcels and matrix to the scored parcel table. *)
Definition score_parcels (land_use_column : string) (gdf0 : GeoDataFrame)
           (m : Matrix) (d : distance) : exc GeoDataFrame :=
  let gdf := ensure_unique_id gdf0 in
  let pairs := adjacent_pairs land_use_column gdf d in
  let long := matrix_long m in
  let pairs := with_right_uses pairs (right_uses land_use_column gdf) in
  let scored := scored_pairs pairs long in
  let fs := final_scores scored in
  let merged := merge_scores gdf fs in
  if has_column "compat_score" gdf then Raise KeyError
  else
    let filled := map (fun rs => (fst rs, fillna 5 (snd rs))) merged in
    cast <- traverse (fun rs => z <- astype_Int64 (snd rs) ;;
                                Ok (set_cell "compat_score" (VInt z) (fst rs)))
                     filled ;;
    Ok (drop_column "unique_id"
          {| crs := crs gdf;
             columns := columns gdf ++ ["compat_score"];
             rows := cast |}).

(** Lines 173 to 217 as they run: the lookup merge of line 198 checks its
    keys before the score column is read (line 213) and cast (line 214). *)
Definition scoring_stage (land_use_column : string) (gdf0 : GeoDataFrame)
           (m : Matrix) (d : distance) : exc GeoDataFrame :=
  if lookup_keys_conflict land_use_column (ensure_unique_id gdf0) m d
  then Raise ValueError
  else score_parcels land_use_column gdf0 m d.

(* ---------------------------------------------------------------- *)
(** *** [generate_reports] *)

(** [gdf['compat_score']], an Int64 column: missing entries are not
    counted. *)
Definition compat_scores (gdf : GeoDataFrame) : list Z :=
  flat_map (fun r => match get "compat_score" r with
                     | VInt z => [z]
                     | _ => []
                     end) (rows gdf).

(** [value_counts().sort_index()] *)
Definition value_counts (l : list Z) : list (Z * Z) :=
  map (fun s => (s, Z.of_nat (count_occ Z.eq_dec l s)))
      (sort_by Z.leb (distinct Z.eqb l)).

Record SummaryRow : Type := {
  compatibility_score : Z;
  parcel_count : Z;
  percentage : Q
}.

(** The overall summary; the percentage is the exact quotient that the
    float division approximates. *)
Definition overall_summary (gdf : GeoDataFrame) : list SummaryRow :=
  let counts := value_counts (compat_scores gdf) in
  let total := fold_right Z.add 0 (map snd counts) in
  let table :=
    map (fun sc => {| compatibility_score := fst sc;
                      parcel_count := snd sc;
                      percentage := (inject_Z (snd sc) / inject_Z total * 100)%Q |})
        counts in
  (* reindex(range(1, 6), fill_value=0) *)
  map (fun s => match find (fun r => Z.eqb (compatibility_score r) s) table with
                | Some r => r
                | None => {| compatibility_score := s;
                             parcel_count := 0;
                             percentage := 0%Q |}
                end)
      (range 1 5).

Record Breakdown : Type := {
  score_columns : list Z;
  (* land use, the count under each score column, total_parcels *)
  breakdown_rows : list (value * list Z * Z)
}.

(** The group keys of [groupby([land_use_col, 'compat_score'])]: rows
    whose land use is missing are dropped. *)
Definition classified (land_use_col : string) (gdf : GeoDataFrame)
  : list (value * Z) :=
  flat_map (fun r => match get land_use_col r, get "compat_score" r with
                     | VNull, _ => []
                     | u, VInt z => [(u, z)]
                     | _, _ => []
                     end) (rows gdf).

(** The detailed breakdown: [groupby(...).size().unstack(fill_value=0)];
    then the columns 1 to 5 are added where absent, the columns sorted
    and the totals appended. *)
Definition detailed_breakdown (land_use_col : string) (gdf : GeoDataFrame)
  : Breakdown :=
  let keyed := classified land_use_col gdf in
  let classes := sort_by value_leb (distinct value_eqb (map fst keyed)) in
  let present := sort_by Z.leb (distinct Z.eqb (map snd keyed)) in
  let ensured :=
    fold_left (fun cols s => if existsb (Z.eqb s) cols then cols
                             else cols ++ [s])
              (range 1 5) present in
  let cols := sort_by Z.leb ensured in
  {| score_columns := cols;
     breakdown_rows :=
       map (fun u =>
              let counts :=
                map (fun s =>
                       Z.of_nat (List.length
                         (filter (fun k => value_eqb (fst k) u && Z.eqb (snd k) s)
                                 keyed)))
                    cols in
              (u, counts, fold_right Z.add 0 counts))
           classes |}.

Record Reports : Type := {
  overall : list SummaryRow;
  detailed : Breakdown
}.

Definition generate_reports (gdf : GeoDataFrame) (land_use_col : string)
  : Reports :=
  {| overall := overall_summary gdf;
     detailed := detailed_breakdown land_use_col gdf |}.

(* ---------------------------------------------------------------- *)
(** *** [run_analysis] *)

(** What a run prints and does, in order. *)
Inductive event : Type :=
| FatalRead                        (* "FATAL ERROR: Could not read ..." *)
| Loaded (n : nat)                 (* "Loaded n parcels." *)
| FatalMissingColumn (c : string)  (* "FATAL ERROR: Land use column ..." *)
| WarnUndefinedCRS                 (* "Warning: Input CRS is undefined." *)
| WarnGeographicCRS                (* "Warning: CRS is geographic." *)
| Reprojected                      (* gdf.to_crs(...) *)
| FatalMatrixMissing               (* "FATAL ERROR: Matrix CSV not found" *)
| MatrixLoaded
| Buffered                         (* gdf.buffer(adjacency_distance) *)
| Joined (n : nat)                 (* sjoin; "Found n adjacent parcel pairs." *)
| Aggregated
| Exported                         (* gdf.to_file(output_geopackage) *)
| ReportsSaved.                    (* the two CSV summaries *)

Inductive outcome : Type :=
| Aborted                          (* a FATAL ERROR and [return] *)
| Raised (e : exception)
| Completed (scored : GeoDataFrame) (reports : Reports).

(** Lines 155 to 161. *)
Definition check_crs (gdf : GeoDataFrame) : list event * GeoDataFrame :=
  match crs gdf with
  | None => ([WarnUndefinedCRS], gdf)
  | Some c => if is_geographic c
              then ([WarnGeographicCRS; Reprojected], reproject gdf)
              else ([], gdf)
  end.

(** [parcels] is what [gpd.read_file] returned, [None] when the path is
    missing, a .gdb, or unreadable; [matrix] is the parsed CSV, [None]
    when the file does not exist. *)
Definition run_analysis (parcels : option GeoDataFrame)
           (matrix : option Matrix) (land_use_col : string)
           (adjacency_distance : distance) : list event * outcome :=
  match parcels with
  | None => ([FatalRead], Aborted)
  | Some gdf =>
      let loaded := [Loaded (List.length (rows gdf))] in
      if negb (has_column land_use_col gdf)
      then (loaded ++ [FatalMissingColumn land_use_col], Aborted)
      else
        let wg := check_crs gdf in
        let gdf := snd wg in
        match matrix with
        | None => (loaded ++ fst wg ++ [FatalMatrixMissing], Aborted)
        | Some m =>
            let npairs :=
              List.length (adjacent_pairs land_use_col (ensure_unique_id gdf)
                                          adjacency_distance) in
            let log := loaded ++ fst wg ++
                       [MatrixLoaded; Buffered; Joined npairs; Aggregated] in
            match scoring_stage land_use_col gdf m adjacency_distance with
            | Raise e => (log, Raised e)
            | Ok out =>
                (log ++ [Exported; ReportsSaved],
                 Completed out (generate_reports out land_use_col))
            end
        end
  end.

(** The CRS step of lines 155 to 161 goes through: nothing is re-projected,
    or the library can project the parcels. *)
Definition crs_usable (gdf : GeoDataFrame) : bool :=
  match crs gdf with
  | Some c => if is_geographic c
              then projectable (map geometry (rows gdf)) else true
  | None => true
  end.

(** Geometric work: buffering and the spatial join. *)
Definition geometric (e : event) : bool :=
  match e with
  | Buffered | Joined _ => true
  | _ => false
  end.

(** The [compat_score] of the [i]-th parcel of a scored table. *)
Definition compat_score_of (res : exc GeoDataFrame) (i : nat) : option Z :=
  match res with
  | Ok out =>
      match nth_error (rows out) i with
      | Some r => match get "compat_score" r with
                  | VInt z => Some z
                  | _ => None
                  end
      | None => None
      end
  | Raise _ => None
  end.

(* ---------------------------------------------------------------- *)
(** *** The specification's vocabulary *)

(** The adjacency pairs of the specification with [r] on the left: the
    other parcels whose buffered region meets [r]'s own geometry. *)
Definition spec_neighbours (gdf : GeoDataFrame) (d : distance) (r : Row)
  : list Row :=
  filter (fun r' => intersects (geometry r) (buffer (geometry r') d) &&
                    value_neb (get "unique_id" r) (get "unique_id" r'))
         (rows gdf).

(** The content of the matrix cell in line [i], column [j], if any. *)
Definition cell_at (m : Matrix) (i j : nat) : option (option Q) :=
  match nth_error (data m) i with
  | Some line => nth_error line j
  | None => None
  end.

(** The matrix records score [s] for the ordered pair [(a, b)]. *)
Definition matrix_maps (m : Matrix) (a b : value) (s : Q) : Prop :=
  exists i j, nth_error (row_labels m) i = Some a /\
              nth_error (header m) j = Some b /\
              cell_at m i j = Some (Some s).

(** [s] is a resolved score of a pair with parcel [r] on the left. *)
Definition resolved_score (land_use_col : string) (gdf : GeoDataFrame)
           (m : Matrix) (d : distance) (r : Row) (s : Q) : Prop :=
  exists r', In r' (spec_neighbours gdf d r) /\
             matrix_maps m (get land_use_col r) (get land_use_col r') s.

(** The rows of the melted matrix that the lookup joins to a pair whose
    uses are [(a, b)]. *)
Definition lookup_rows (m : Matrix) (a b : value)
  : list (value * value * option Q) :=
  filter (fun e => value_eqb a (fst (fst e)) && value_eqb b (snd (fst e)))
         (matrix_long m).

(** The lookup of [(a, b)] is unresolved: no joined row carries a score. *)
Definition unresolved (m : Matrix) (a b : value) : Prop :=
  forall e, In e (lookup_rows m a b) -> snd e = None.

(** The class labels are strings on both sides of the lookup: the land
    use of every parcel, and the row and column labels of the matrix. *)
Definition text_keys (land_use_col : string) (gdf : GeoDataFrame)
           (m : Matrix) : bool :=
  forallb is_str (map (get land_use_col) (rows (ensure_unique_id gdf))) &&
  forallb is_str (row_labels m) && forallb is_str (header m).

(** The cell of the ordered pair [(a, b)] is present in the matrix and
    left blank. *)
Definition blank_pair (m : Matrix) (a b : value) : Prop :=
  (exists i j, nth_error (row_labels m) i = Some a /\
               nth_error (header m) j = Some b) /\
  (forall i j, nth_error (row_labels m) i = Some a ->
               nth_error (header m) j = Some b ->
               cell_at m i j = Some None).

(** The matrix has no line for [a] or no column for [b]. *)
Definition absent_pair (m : Matrix) (a b : value) : Prop :=
  ~ In a (row_labels m) \/ ~ In b (header m).

(** The matrix records the integer [z], and nothing else, for [(a, b)]. *)
Definition maps_only (m : Matrix) (a b : value) (z : Z) : Prop :=
  (exists s, matrix_maps m a b s) /\
  (forall s, matrix_maps m a b s -> (s == inject_Z z)%Q).

(** An integer of magnitude at most 2^53, which a float holds exactly. *)
Definition integral (q : Q) : bool :=
  Pos.eqb (Qden (Qred q)) 1 && (Z.abs (Qnum (Qred q)) <=? 9007199254740992).

(** Every present cell of the matrix is such an integer. *)

Definition matrix_integral (m : Matrix) : bool :=
  forallb (forallb (fun c => match c with
                             | Some q => integral q
                             | None => true
                             end)) (data m).

(** The identifiers are present and pairwise distinct. *)
Fixpoint no_repeat (l : list value) : bool :=
  match l with
  | [] => true
  | v :: t => negb (existsb (value_eqb v) t) && no_repeat t
  end.

Definition unique_ids (gdf : GeoDataFrame) : bool :=
  let ids := map (get "unique_id") (rows (ensure_unique_id gdf)) in
  forallb notnull ids && no_repeat ids.

(** The directed pair of identifiers [(x, y)] is among the pairs. *)
Definition pair_present (pairs : list AdjacencyPair) (x y : value) : bool :=
  existsb (fun p => value_eqb (unique_id_left p) x &&
                    value_eqb (unique_id_right p) y) pairs.

(* ---------------------------------------------------------------- *)
(** *** Names for the intermediate tables of a run *)

(** The scored pairs of lines 188 to 204, for a table that already has
    its identifiers. *)
Definition run_scored_pairs (land_use_column : string) (gdf : GeoDataFrame)
           (m : Matrix) (d : distance) : list ScoredPair :=
  scored_pairs (with_right_uses (adjacent_pairs land_use_column gdf d)
                                (right_uses land_use_column gdf))
               (matrix_long m).

(** The score cells grouped under the identifier [k]. *)
Definition group_scores (sp : list ScoredPair) (k : value) : list (option Q) :=
  map score (filter (fun p => value_eqb (unique_id_left (adj (uses p))) k) sp).

(** The merged float cell of a parcel. *)
Definition attached (sp : list ScoredPair) (r : Row) : option Q :=
  if notnull (get "unique_id" r)
  then min_skipna (group_scores sp (get "unique_id" r))
  else None.

(** The row a parcel ends as, once its cell is filled, cast and the
    identifier column dropped. *)
Definition finish (sp : list ScoredPair) (r : Row) : Row :=
  drop_cell "unique_id"
    (set_cell "compat_score"
              (VInt (Qnum (Qred (fillna 5 (attached sp r))))) r).

(** A score on the scale 1 to 5. *)
Definition on_scale (z : Z) : bool := (1 <=? z) && (z <=? 5).

(** The sum of a column of counts. *)
Definition total (l : list Z) : Z := fold_right Z.add 0 l.

(** The scored table of a run that does not raise. *)
Definition scored_table (land_use_column : string) (gdf0 : GeoDataFrame)
           (m : Matrix) (d : distance) : GeoDataFrame :=
  {| crs := crs gdf0;
     columns := filter (fun k => negb (String.eqb k "unique_id"))
                       (columns (ensure_unique_id gdf0) ++ ["compat_score"]);
     rows := map (finish (run_scored_pairs land_use_column
                                           (ensure_unique_id gdf0) m d))
                 (rows (ensure_unique_id gdf0)) |}.

(** The geometry a parcel is scored and exported with: re-projected
    when the input CRS is geographic, as given otherwise. *)
Definition prepared_geometry (gdf : GeoDataFrame) (g : shape) : shape :=
  match crs gdf with
  | Some c => if is_geographic c
              then to_crs (estimate_utm_crs (map geometry (rows gdf))) g
              else g
  | None => g
  end.

(** The log of a run that completes. *)
Definition complete_log (land_use_col : string) (gdf : GeoDataFrame)
           (d : distance) : list event :=
  [Loaded (List.length (rows gdf))] ++ fst (check_crs gdf) ++
  [MatrixLoaded; Buffered;
   Joined (List.length (adjacent_pairs land_use_col
                          (ensure_unique_id (snd (check_crs gdf))) d));
   Aggregated] ++ [Exported; ReportsSaved].

End Engine.

(* ================================================================== *)
(** ** Concrete parcel sets on the line *)

Module Samples.

Definition parcel (lo hi : Z) (use : string) : Row :=
  {| geometry := (lo, hi); cells := [("KARBARI_MO", VStr use)] |}.

Definition metric : option CRS :=
  Some {| crs_name := "EPSG:32639"; is_geographic := false |}.

Definition wgs84 : option CRS :=
  Some {| crs_name := "EPSG:4326"; is_geographic := true |}.

Definition table (c : option CRS) (rs : list Row) : GeoDataFrame :=
  {| crs := c; columns := ["KARBARI_MO"]; rows := rs |}.

Definition cell (z : Z) : option Q := Some (inject_Z z).

(** The scenario of the specification, in centimetres: P1 on [0, 100],
    P2 on [105, 200]. *)
Definition scenario : GeoDataFrame :=
  table metric [parcel 0 100 "Residential"; parcel 105 200 "Industrial"].

Definition scenario_matrix : Matrix :=
  {| row_labels := [VStr "Residential"; VStr "Industrial"];
     header := [VStr "Residential"; VStr "Industrial"];
     data := [[None; cell 1]; [cell 1; None]] |}.

(** A directional matrix: (Residential, Industrial) is 1 and
    (Industrial, Residential) is 4. *)
Definition directional_matrix : Matrix :=
  {| row_labels := [VStr "Residential"; VStr "Industrial"];
     header := [VStr "Residential"; VStr "Industrial"];
     data := [[cell 5; cell 1]; [cell 4; cell 5]] |}.

(** A parcel of class A between three neighbours of classes B, C, D. *)
Definition star : GeoDataFrame :=
  table metric [parcel 0 100 "A"; parcel (-50) (-5) "B";
                parcel 105 150 "C"; parcel 40 60 "D"].

Definition star_matrix : Matrix :=
  {| row_labels := [VStr "A"];
     header := [VStr "B"; VStr "C"; VStr "D"];
     data := [[cell 5; cell 3; cell 4]] |}.

(** Class B is unknown to this matrix, (A, C) scores 2. *)
Definition partial_matrix : Matrix :=
  {| row_labels := [VStr "A"];
     header := [VStr "C"];
     data := [[cell 2]] |}.

Definition three : GeoDataFrame :=
  table metric [parcel 0 100 "A"; parcel (-50) (-5) "B"; parcel 105 150 "C"].

(** The cell of (Residential, Industrial) is present and blank. *)
Definition blank_matrix : Matrix :=
  {| row_labels := [VStr "Residential"; VStr "Industrial"];
     header := [VStr "Residential"; VStr "Industrial"];
     data := [[cell 5; None]; [cell 2; cell 5]] |}.

(** Scores outside 1 to 5, and a score that is not an integer. *)
Definition wide_matrix : Matrix :=
  {| row_labels := [VStr "Residential"; VStr "Industrial"];
     header := [VStr "Residential"; VStr "Industrial"];
     data := [[cell 5; cell 7]; [cell 0; cell 5]] |}.

Definition fractional_matrix : Matrix :=
  {| row_labels := [VStr "Residential"; VStr "Industrial"];
     header := [VStr "Residential"; VStr "Industrial"];
     data := [[cell 5; Some (5 # 2)%Q]; [cell 1; cell 5]] |}.

(** Classes that are numbered: [read_csv] gives the row labels as integers
    and the column labels as strings. *)
Definition numbered_matrix : Matrix :=
  {| row_labels := [VInt 1; VInt 2];
     header := [VStr "1"; VStr "2"];
     data := [[cell 5; cell 1]; [cell 4; cell 5]] |}.


(** Two parcels in geographic coordinates: degrees of longitude, inside
    UTM zone 39. *)
Definition geographic : GeoDataFrame :=
  table wgs84 [parcel 50 51 "Residential"; parcel 52 53 "Industrial"].

Definition undefined_crs : GeoDataFrame :=
  table None [parcel 0 100 "Residential"; parcel 105 200 "Industrial"].

(** Parcels that bring their own [unique_id] column. *)
Definition with_ids : GeoDataFrame :=
  {| crs := metric;
     columns := ["KARBARI_MO"; "unique_id"];
     rows := [ {| geometry := (0, 100);
                  cells := [("KARBARI_MO", VStr "Residential");
                            ("unique_id", VInt 17)] |};
               {| geometry := (105, 200);
                  cells := [("KARBARI_MO", VStr "Industrial");
                            ("unique_id", VInt 42)] |} ] |}.

(** Parcels that bring identifiers of their own: the first and the third
    share the identifier 7, the last has none. *)
Definition identified (lo hi : Z) (use : string) (id : value) : Row :=
  {| geometry := (lo, hi);
     cells := [("KARBARI_MO", VStr use); ("unique_id", id)] |}.

Definition shared_ids : GeoDataFrame :=
  {| crs := metric;
     columns := ["KARBARI_MO"; "unique_id"];
     rows := [identified 0 100 "Residential" (VInt 7);
              identified 105 200 "Industrial" (VInt 8);
              identified 1000 1100 "Residential" (VInt 7);
              identified 205 300 "Residential" VNull] |}.

(** A parcel as it stands once the identifiers are synthesised. *)
Definition numbered (i : Z) (r : Row) : Row :=
  set_cell "unique_id" (VInt i) r.

Definition residential : Row := numbered 0 (parcel 0 100 "Residential").
Definition industrial : Row := numbered 1 (parcel 105 200 "Industrial").

End Samples.

(* ================================================================== *)
(** ** Values and generic tables: basic facts *)

Lemma value_eqb_eq (a b : value) : value_eqb a b = true <-> a = b.
Proof.
  destruct a, b; simpl; split; intro H; try discriminate; try reflexivity.
  - apply Z.eqb_eq in H. now subst.
  - inversion H. apply Z.eqb_refl.
  - apply String.eqb_eq in H. now subst.
  - inversion H. apply String.eqb_refl.
Qed.

Lemma value_eqb_refl (a : value) : value_eqb a a = true.
Proof. now apply value_eqb_eq. Qed.

Lemma value_eqb_sym (a b : value) : value_eqb a b = value_eqb b a.
Proof.
  destruct (value_eqb a b) eqn:E.
  - apply value_eqb_eq in E. subst. symmetry. apply value_eqb_refl.
  - destruct (value_eqb b a) eqn:E'; [|reflexivity].
    apply value_eqb_eq in E'. subst. now rewrite value_eqb_refl in E.
Qed.

Lemma value_neb_sym (a b : value) : value_neb a b = value_neb b a.
Proof.
  destruct a, b; simpl; try reflexivity; f_equal.
  - apply Z.eqb_sym.
  - apply String.eqb_sym.
Qed.

Section TableFacts.
Context {A B C : Type}.

Lemma in_merge_left (on : A -> B -> bool) (found : A -> B -> C)
      (missing : A -> C) (l : list A) (r : list B) (c : C) :
  In c (merge_left on found missing l r) <->
  exists a, In a l /\
            ((exists b, In b r /\ on a b = true /\ c = found a b) \/
             ((forall b, In b r -> on a b = false) /\ c = missing a)).
Proof.
  unfold merge_left. rewrite in_flat_map. split.
  - intros (a & Ha & Hc). exists a. split; [exact Ha|].
    destruct (filter (on a) r) as [|b0 bs] eqn:E.
    + right. destruct Hc as [Hc|[]]. split; [|now symmetry].
      intros b Hb. destruct (on a b) eqn:Eb; [|reflexivity].
      assert (Hin : In b (filter (on a) r)) by (apply filter_In; auto).
      rewrite E in Hin. destruct Hin.
    + left. rewrite <- E in Hc. apply in_map_iff in Hc.
      destruct Hc as (b & Hb & Hin). apply filter_In in Hin.
      exists b. intuition.
  - intros (a & Ha & [(b & Hb & Hon & Hc) | (Hnone & Hc)]); exists a;
      (split; [exact Ha|]).
    + assert (Hin : In b (filter (on a) r)) by (apply filter_In; auto).
      destruct (filter (on a) r) as [|b0 bs] eqn:E; [destruct Hin|].
      rewrite <- E. subst c. apply in_map. rewrite E. exact Hin.
    + assert (E : filter (on a) r = []).
      { destruct (filter (on a) r) as [|b0 bs] eqn:E; [reflexivity|].
        assert (Hin : In b0 (filter (on a) r)) by (rewrite E; now left).
        apply filter_In in Hin. destruct Hin as [Hin Hon].
        rewrite (Hnone b0 Hin) in Hon. discriminate. }
      rewrite E. left. now symmetry.
Qed.

(** Against a right table with at most one match per left row, a left
    merge keeps the left rows as they are. *)
Lemma merge_left_functional (on : A -> B -> bool) (found : A -> B -> C)
      (missing : A -> C) (pick : A -> option B) (l : list A) (r : list B) :
  (forall a, In a l ->
             filter (on a) r = match pick a with Some b => [b] | None => [] end) ->
  merge_left on found missing l r =
  map (fun a => match pick a with Some b => found a b | None => missing a end) l.
Proof.
  intros H. unfold merge_left. induction l as [|a l IH]; [reflexivity|].
  cbn [flat_map]. rewrite (H a (or_introl eq_refl)), IH.
  - simpl. destruct (pick a); reflexivity.
  - intros a' Ha'. apply H. now right.
Qed.

Lemma insert_by_perm (leb : A -> A -> bool) (x : A) (l : list A) :
  Permutation (insert_by leb x l) (x :: l).
Proof.
  induction l as [|y t IH]; simpl; [reflexivity|].
  destruct (leb x y); [reflexivity|].
  etransitivity; [apply perm_skip, IH | apply perm_swap].
Qed.

Lemma sort_by_perm (leb : A -> A -> bool) (l : list A) :
  Permutation (sort_by leb l) l.
Proof.
  induction l as [|x t IH]; simpl; [reflexivity|].
  etransitivity; [apply insert_by_perm | now apply perm_skip].
Qed.

Lemma traverse_ok (f : A -> exc B) (g : A -> B) (l : list A) :
  (forall a, In a l -> f a = Ok (g a)) -> traverse f l = Ok (map g l).
Proof.
  induction l as [|a t IH]; intros H; simpl; [reflexivity|].
  rewrite (H a (or_introl eq_refl)). simpl.
  rewrite IH; [reflexivity|]. intros a' Ha'. apply H. now right.
Qed.

Lemma NoDup_map_inj (f : A -> B) (l : list A) (x y : A) :
  NoDup (map f l) -> In x l -> In y l -> f x = f y -> x = y.
Proof.
  induction l as [|a t IH]; simpl; intros Hnd Hx Hy Hf; [destruct Hx|].
  inversion Hnd as [|? ? Hnot Hnd']; subst.
  destruct Hx as [Hx|Hx], Hy as [Hy|Hy].
  - congruence.
  - subst a. exfalso. apply Hnot. rewrite Hf. now apply in_map.
  - subst a. exfalso. apply Hnot. rewrite <- Hf. now apply in_map.
  - now apply IH.
Qed.
End TableFacts.

Section Distinct.
Context {A : Type} (eqb : A -> A -> bool).
Hypothesis eqb_eq : forall x y, eqb x y = true <-> x = y.

Lemma in_distinct (l : list A) (v : A) : In v (distinct eqb l) <-> In v l.
Proof.
  induction l as [|x t IH]; simpl; [tauto|].
  rewrite filter_In, IH. split.
  - tauto.
  - intros [H|H]; [now left|].
    destruct (eqb x v) eqn:E.
    + left. now apply eqb_eq.
    + right. split; [exact H | reflexivity].
Qed.

Lemma NoDup_distinct (l : list A) : NoDup (distinct eqb l).
Proof.
  induction l as [|x t IH]; simpl; constructor.
  - rewrite filter_In. intros [_ H].
    rewrite (proj2 (eqb_eq x x) eq_refl) in H. discriminate.
  - now apply NoDup_filter.
Qed.
End Distinct.

Lemma filter_eqb_NoDup (v : value) (l : list value) :
  NoDup l ->
  filter (value_eqb v) l = if existsb (value_eqb v) l then [v] else [].
Proof.
  induction l as [|x t IH]; intros Hnd; simpl; [reflexivity|].
  inversion Hnd as [|? ? Hnot Hnd']; subst.
  destruct (value_eqb v x) eqn:E; simpl.
  - apply value_eqb_eq in E. subst x. rewrite (IH Hnd').
    destruct (existsb (value_eqb v) t) eqn:Ex; [|reflexivity].
    exfalso. apply Hnot. apply existsb_exists in Ex.
    destruct Ex as (y & Hy & Hvy). apply value_eqb_eq in Hvy. now subst.
  - now apply IH.
Qed.

Lemma no_repeat_NoDup (l : list value) : no_repeat l = true -> NoDup l.
Proof.
  induction l as [|x t IH]; simpl; intros H; constructor;
    apply andb_true_iff in H; destruct H as [Hx Ht].
  - intros Hin. apply negb_true_iff in Hx.
    assert (Hex : existsb (value_eqb x) t = true).
    { apply existsb_exists. exists x. split; [exact Hin | apply value_eqb_refl]. }
    congruence.
  - now apply IH.
Qed.

(* ================================================================== *)
(** ** Cells, columns and identifiers *)

Section Properties.
Context {geo : Geometry} {pandas : Pandas}.

Lemma lookup_assign_same (c : string) (v : value) (cs : list (string * value)) :
  lookup c (assign c v cs) = v.
Proof.
  induction cs as [|[k x] t IH]; simpl.
  - now rewrite String.eqb_refl.
  - destruct (String.eqb k c) eqn:E; simpl; rewrite E; [reflexivity | exact IH].
Qed.

Lemma lookup_assign_other (c c' : string) (v : value) (cs : list (string * value)) :
  c <> c' -> lookup c' (assign c v cs) = lookup c' cs.
Proof.
  intros Hne. induction cs as [|[k x] t IH]; simpl.
  - destruct (String.eqb c c') eqn:E; [|reflexivity].
    apply String.eqb_eq in E. contradiction.
  - destruct (String.eqb k c) eqn:E; simpl.
    + apply String.eqb_eq in E. subst k.
      destruct (String.eqb c c') eqn:E'; [|reflexivity].
      apply String.eqb_eq in E'. contradiction.
    + now rewrite IH.
Qed.

Lemma lookup_drop_other (c c' : string) (cs : list (string * value)) :
  c <> c' ->
  lookup c' (filter (fun kv => negb (String.eqb (fst kv) c)) cs) = lookup c' cs.
Proof.
  intros Hne. induction cs as [|[k x] t IH]; simpl; [reflexivity|].
  destruct (String.eqb k c) eqn:E; simpl.
  - apply String.eqb_eq in E. subst k.
    destruct (String.eqb c c') eqn:E'; [|exact IH].
    apply String.eqb_eq in E'. contradiction.
  - now rewrite IH.
Qed.

Lemma assign_fresh (c : string) (v : value) (cs : list (string * value)) :
  ~ In c (map fst cs) -> assign c v cs = cs ++ [(c, v)].
Proof.
  induction cs as [|[k x] t IH]; simpl; intros Hnot; [reflexivity|].
  destruct (String.eqb k c) eqn:E.
  - apply String.eqb_eq in E. tauto.
  - rewrite IH; tauto.
Qed.

Lemma drop_fresh (c : string) (cs : list (string * value)) :
  ~ In c (map fst cs) ->
  filter (fun kv => negb (String.eqb (fst kv) c)) cs = cs.
Proof.
  induction cs as [|[k x] t IH]; simpl; intros Hnot; [reflexivity|].
  destruct (String.eqb k c) eqn:E; simpl.
  - apply String.eqb_eq in E. tauto.
  - rewrite IH; tauto.
Qed.

Lemma has_column_in (c : string) (gdf : GeoDataFrame) :
  has_column c gdf = true <-> In c (columns gdf).
Proof.
  unfold has_column. rewrite existsb_exists. split.
  - intros (k & Hk & E). apply String.eqb_eq in E. now subst.
  - intros H. exists c. split; [exact H | apply String.eqb_refl].
Qed.

Lemma has_column_ensure (c : string) (gdf : GeoDataFrame) :
  c <> "unique_id" ->
  has_column c (ensure_unique_id gdf) = has_column c gdf.
Proof.
  intros Hne. unfold ensure_unique_id.
  destruct (has_column "unique_id" gdf) eqn:E; [reflexivity|].
  unfold set_column. unfold has_column at 1. cbn [columns].
  rewrite E. unfold has_column. rewrite existsb_app. cbn [existsb].
  destruct (String.eqb c "unique_id") eqn:E'.
  - apply String.eqb_eq in E'. contradiction.
  - now rewrite !orb_false_r.
Qed.

Lemma crs_ensure (gdf : GeoDataFrame) : crs (ensure_unique_id gdf) = crs gdf.
Proof.
  unfold ensure_unique_id. now destruct (has_column "unique_id" gdf).
Qed.

Lemma ensure_idempotent (gdf : GeoDataFrame) :
  has_column "unique_id" (ensure_unique_id gdf) = true.
Proof.
  unfold ensure_unique_id.
  destruct (has_column "unique_id" gdf) eqn:E; [exact E|].
  unfold set_column. unfold has_column at 1. cbn [columns].
  rewrite E. unfold has_column. rewrite existsb_app. cbn [existsb]. rewrite String.eqb_refl.
  now rewrite orb_true_r.
Qed.

Lemma length_rows_ensure (gdf : GeoDataFrame) :
  List.length (rows (ensure_unique_id gdf)) = List.length (rows gdf).
Proof.
  unfold ensure_unique_id.
  destruct (has_column "unique_id" gdf); [reflexivity|].
  simpl. rewrite length_map, length_combine, length_map.
  unfold range. rewrite length_map, length_seq. lia.
Qed.

(* ---------------------------------------------------------------- *)
(** ** The final merge attaches one score cell to every parcel *)

Lemma min_skipna_none (l : list (option Q)) :
  min_skipna l = None <-> (forall s, ~ In (Some s) l).
Proof.
  induction l as [|[q|] t IH]; simpl.
  - split; [intros _ s [] | reflexivity].
  - split.
    + destruct (min_skipna t); discriminate.
    + intros H. exfalso. apply (H q). now left.
  - rewrite IH. split; intros H s.
    + intros [E|E]; [discriminate | now apply (H s)].
    + intros E. apply (H s). now right.
Qed.

Lemma min_skipna_some (l : list (option Q)) (m : Q) :
  min_skipna l = Some m ->
  In (Some m) l /\ (forall s, In (Some s) l -> (m <= s)%Q).
Proof.
  revert m. induction l as [|[q|] t IH]; simpl; intros m H.
  - discriminate.
  - destruct (min_skipna t) as [m'|] eqn:E.
    + destruct (IH m' eq_refl) as [Hin Hle].
      destruct (Qle_bool q m') eqn:Eq; inversion H; subst m; clear H.
      * apply Qle_bool_iff in Eq. split; [now left|].
        intros s [Hs|Hs].
        -- inversion Hs. apply Qle_refl.
        -- eapply Qle_trans; [exact Eq | now apply Hle].
      * assert (Hlt : (m' <= q)%Q).
        { destruct (Qlt_le_dec m' q) as [Hl|Hl]; [now apply Qlt_le_weak|].
          apply Qle_bool_iff in Hl. congruence. }
        split; [now right|].
        intros s [Hs|Hs]; [inversion Hs; now subst | now apply Hle].
    + inversion H; subst m. split; [now left|].
      intros s [Hs|Hs]; [inversion Hs; apply Qle_refl|].
      exfalso. now apply (proj1 (min_skipna_none t) E s).
  - destruct (IH m H) as [Hin Hle]. split; [now right|].
    intros s [Hs|Hs]; [discriminate | now apply Hle].
Qed.

Lemma filter_map_comm {A B : Type} (p : B -> bool) (g : A -> B) (l : list A) :
  filter p (map g l) = map g (filter (fun a => p (g a)) l).
Proof.
  induction l as [|a t IH]; simpl; [reflexivity|].
  destruct (p (g a)); simpl; now rewrite IH.
Qed.

Lemma merge_scores_attached (gdf : GeoDataFrame) (sp : list ScoredPair) :
  merge_scores gdf (final_scores sp) =
  map (fun r => (r, attached sp r)) (rows gdf).
Proof.
  unfold merge_scores, final_scores.
  set (ids := map (fun p => unique_id_left (adj (uses p))) sp).
  set (keys := sort_by value_leb (distinct value_eqb (filter notnull ids))).
  assert (Hnd : NoDup keys).
  { eapply Permutation_NoDup; [symmetry; apply sort_by_perm|].
    apply (NoDup_distinct value_eqb value_eqb_eq). }
  assert (Hin : forall v, In v keys <-> notnull v = true /\ In v ids).
  { intros v. unfold keys. split.
    - intros H. apply (Permutation_in _ (sort_by_perm _ _)) in H.
      apply (in_distinct value_eqb value_eqb_eq), filter_In in H. tauto.
    - intros [Hv H]. apply (Permutation_in _ (Permutation_sym (sort_by_perm _ _))).
      apply (in_distinct value_eqb value_eqb_eq), filter_In. tauto. }
  rewrite (merge_left_functional _ _ _
             (fun r => if existsb (value_eqb (get "unique_id" r)) keys
                       then Some (get "unique_id" r,
                                  min_skipna (group_scores sp (get "unique_id" r)))
                       else None)).
  - apply map_ext. intros r. unfold attached.
    destruct (existsb (value_eqb (get "unique_id" r)) keys) eqn:E; simpl.
    + apply existsb_exists in E. destruct E as (k & Hk & Ek).
      apply value_eqb_eq in Ek. subst k. apply Hin in Hk.
      destruct Hk as [Hk _]. now rewrite Hk.
    + destruct (notnull (get "unique_id" r)) eqn:En; [|reflexivity].
      f_equal. symmetry. apply min_skipna_none. intros s Hs.
      unfold group_scores in Hs. apply in_map_iff in Hs.
      destruct Hs as (p & _ & Hp). apply filter_In in Hp.
      destruct Hp as [Hp Ek]. apply value_eqb_eq in Ek.
      assert (Hex : existsb (value_eqb (get "unique_id" r)) keys = true).
      { apply existsb_exists. exists (get "unique_id" r).
        split; [|apply value_eqb_refl]. apply Hin. split; [exact En|].
        rewrite <- Ek. unfold ids.
        apply (in_map (fun p => unique_id_left (adj (uses p)))). exact Hp. }
      congruence.
  - intros r _.
    rewrite (filter_map_comm (fun kv => value_eqb (get "unique_id" r) (fst kv))).
    simpl. rewrite (filter_eqb_NoDup _ _ Hnd).
    destruct (existsb (value_eqb (get "unique_id" r)) keys); reflexivity.
Qed.

(* ---------------------------------------------------------------- *)
(** ** What the joins contain *)

Lemma in_combine_nth {A B : Type} (l1 : list A) (l2 : list B) (x : A) (y : B) :
  In (x, y) (combine l1 l2) <->
  exists i, nth_error l1 i = Some x /\ nth_error l2 i = Some y.
Proof.
  revert l2. induction l1 as [|a t IH]; intros [|b u]; simpl.
  - split; [intros [] | intros ([|i] & H & _); discriminate].
  - split; [intros [] | intros ([|i] & H & _); discriminate].
  - split; [intros [] | intros ([|i] & _ & H); discriminate].
  - rewrite IH. split.
    + intros [E | (i & H1 & H2)].
      * inversion E; subst. now exists 0%nat.
      * now exists (S i).
    + intros ([|i] & H1 & H2); simpl in *.
      * left. congruence.
      * right. now exists i.
Qed.

Lemma in_matrix_long_cell (m : Matrix) (a b : value) (c : option Q) :
  In (a, b, c) (matrix_long m) ->
  exists i j, nth_error (row_labels m) i = Some a /\
              nth_error (header m) j = Some b /\
              cell_at m i j = Some c.
Proof.
  unfold matrix_long, cell_at. rewrite in_flat_map.
  intros ([u line] & Hil & Hin). apply in_combine_nth in Hil.
  destruct Hil as (i & Hi & Hline). apply in_flat_map in Hin.
  destruct Hin as ([h c'] & Hhc & Hc). apply in_combine_nth in Hhc.
  destruct Hhc as (j & Hj & Hcell). simpl in Hc.
  assert (E : (u, h, c') = (a, b, c)).
  { destruct c' as [q|]; [destruct Hc as [E|[]]; exact E|].
    destruct stack_keeps_blank; [destruct Hc as [E|[]]; exact E | destruct Hc]. }
  inversion E; subst. exists i, j. rewrite Hline. auto.
Qed.

Lemma in_matrix_long (m : Matrix) (a b : value) (s : Q) :
  In (a, b, Some s) (matrix_long m) <-> matrix_maps m a b s.
Proof.
  split; [apply in_matrix_long_cell|].
  unfold matrix_long, matrix_maps, cell_at. rewrite in_flat_map.
  - intros (i & j & Hi & Hj & Hc).
    destruct (nth_error (data m) i) as [line|] eqn:Hline; [|discriminate].
    exists (a, line). split.
    + apply in_combine_nth. now exists i.
    + apply in_flat_map. exists (b, Some s). split.
      * apply in_combine_nth. now exists j.
      * now left.
Qed.

(** The keys of the melted matrix are labels of the matrix. *)
Lemma matrix_long_labels (m : Matrix) (e : value * value * option Q) :
  In e (matrix_long m) ->
  In (fst (fst e)) (row_labels m) /\ In (snd (fst e)) (header m).
Proof.
  destruct e as [[a b] c]. intros H. apply in_matrix_long_cell in H.
  destruct H as (i & j & Hi & Hj & _). simpl.
  split; eapply nth_error_In; eassumption.
Qed.

Lemma in_adjacent_pairs (col : string) (gdf : GeoDataFrame) (d : distance)
      (p : AdjacencyPair) :
  In p (adjacent_pairs col gdf d) <->
  exists l r, In l (rows gdf) /\ In r (rows gdf) /\
              intersects (geometry l) (buffer (geometry r) d) = true /\
              value_neb (get "unique_id" l) (get "unique_id" r) = true /\
              p = {| unique_id_left := get "unique_id" l;
                     use_left := get col l;
                     unique_id_right := get "unique_id" r |}.
Proof.
  unfold adjacent_pairs, sjoin. rewrite in_map_iff. split.
  - intros ([l rb] & Hp & Hin). apply filter_In in Hin.
    destruct Hin as [Hin Hne]. apply in_flat_map in Hin.
    destruct Hin as (l' & Hl & Hin). apply in_map_iff in Hin.
    destruct Hin as (rb' & E & Hin). inversion E; subst l' rb'. clear E.
    apply filter_In in Hin. destruct Hin as [Hin Hint].
    simpl in Hin. apply in_map_iff in Hin. destruct Hin as (r & Hr & Hin).
    subst rb. exists l, r. simpl in *. auto.
  - intros (l & r & Hl & Hr & Hint & Hne & Hp).
    exists (l, {| geometry := buffer (geometry r) d; cells := cells r |}).
    split; [now subst p|]. apply filter_In. split; [|exact Hne].
    apply in_flat_map. exists l. split; [exact Hl|]. apply in_map.
    apply filter_In. split; [|exact Hint].
    simpl. apply in_map_iff. now exists r.
Qed.

(** Every resolved score of a scored pair is the matrix entry of exactly
    the ordered pair (left use, right use). *)
Lemma scored_pairs_directional (pairs : list UsePair) (m : Matrix)
      (p : ScoredPair) (s : Q) :
  In p (scored_pairs pairs (matrix_long m)) -> score p = Some s ->
  matrix_maps m (use_left (adj (uses p))) (use_right (uses p)) s.
Proof.
  unfold scored_pairs. intros Hin Hs. apply in_merge_left in Hin.
  destruct Hin as (up & _ & [([[u1 u2] q] & He & Hon & Hp) | (_ & Hp)]);
    subst p; simpl in *; [|discriminate].
  subst q. apply andb_true_iff in Hon. destruct Hon as [H1 H2].
  apply value_eqb_eq in H1, H2. subst u1 u2. now apply in_matrix_long.
Qed.

Lemma unique_ids_NoDup (gdf0 : GeoDataFrame) :
  unique_ids gdf0 = true ->
  NoDup (map (get "unique_id") (rows (ensure_unique_id gdf0))) /\
  (forall r, In r (rows (ensure_unique_id gdf0)) ->
             notnull (get "unique_id" r) = true).
Proof.
  unfold unique_ids. intros H. apply andb_true_iff in H. destruct H as [Hn Hr].
  split; [now apply no_repeat_NoDup|].
  intros r Hin. rewrite forallb_forall in Hn. apply Hn.
  now apply in_map.
Qed.

Lemma snd_combine {A B : Type} (l1 : list A) (l2 : list B) :
  List.length l1 = List.length l2 -> map snd (combine l1 l2) = l2.
Proof.
  revert l2. induction l1 as [|a t IH]; intros [|b u] H; simpl in *;
    try discriminate; [reflexivity|].
  f_equal. apply IH. lia.
Qed.

Lemma NoDup_no_repeat (l : list value) : NoDup l -> no_repeat l = true.
Proof.
  induction 1 as [|x t Hnot Hnd IH]; simpl; [reflexivity|].
  rewrite IH, andb_true_r. apply negb_true_iff.
  destruct (existsb (value_eqb x) t) eqn:E; [|reflexivity].
  apply existsb_exists in E. destruct E as (y & Hy & E).
  apply value_eqb_eq in E. now subst y.
Qed.

(** X2. When the parcels bring no [unique_id] column, the identifiers that
    the engine synthesises are all present and pairwise distinct. *)
Lemma synthesised_ids_unique (gdf : GeoDataFrame) :
  has_column "unique_id" gdf = false -> unique_ids gdf = true.
Proof.
  intros H. unfold unique_ids, ensure_unique_id. rewrite H.
  unfold set_column. cbn [rows]. rewrite map_map.
  assert (E : map (fun rv : Row * value =>
                     get "unique_id" (set_cell "unique_id" (snd rv) (fst rv)))
                  (combine (rows gdf)
                           (map VInt (range 0 (List.length (rows gdf))))) =
              map VInt (range 0 (List.length (rows gdf)))).
  { transitivity (map snd (combine (rows gdf)
                    (map VInt (range 0 (List.length (rows gdf)))))).
    - apply map_ext. intros [r v]. unfold get, set_cell. cbn [cells fst snd].
      apply lookup_assign_same.
    - apply snd_combine. unfold range. now rewrite !length_map, length_seq. }
  rewrite E. clear E. apply andb_true_iff. split.
  - apply forallb_forall. intros v Hv. apply in_map_iff in Hv.
    now destruct Hv as (z & <- & _).
  - apply NoDup_no_repeat. unfold range. rewrite map_map.
    generalize 0%nat at 1. induction (List.length (rows gdf)) as [|n IH];
      intros k; simpl; constructor.
    + rewrite in_map_iff. intros (j & Hj & Hin). apply in_seq in Hin.
      inversion Hj. lia.
    + apply IH.
Qed.

(** With distinct identifiers, the group of a parcel holds exactly the
    scores the matrix records for that parcel against its neighbours. *)
Lemma group_resolved (col : string) (gdf0 : GeoDataFrame) (m : Matrix)
      (d : distance) (r : Row) (s : Q) :
  unique_ids gdf0 = true -> In r (rows (ensure_unique_id gdf0)) ->
  In (Some s) (group_scores (run_scored_pairs col (ensure_unique_id gdf0) m d)
                            (get "unique_id" r)) <->
  resolved_score col (ensure_unique_id gdf0) m d r s.
Proof.
  intros Hu Hr. destruct (unique_ids_NoDup _ Hu) as [Hnd _].
  set (gdf := ensure_unique_id gdf0) in *.
  unfold group_scores, run_scored_pairs, resolved_score, spec_neighbours.
  rewrite in_map_iff. split.
  - intros (p & Hs & Hin). apply filter_In in Hin. destruct Hin as [Hin Hk].
    apply value_eqb_eq in Hk.
    pose proof (scored_pairs_directional _ _ _ _ Hin Hs) as Hm.
    unfold scored_pairs in Hin. apply in_merge_left in Hin.
    destruct Hin as (up & Hup & Hp).
    assert (Huses : uses p = up).
    { destruct Hp as [(e & _ & _ & Hp) | (_ & Hp)]; now subst p. }
    rewrite Huses in *. clear Hp Huses.
    unfold with_right_uses in Hup. apply in_merge_left in Hup.
    destruct Hup as (ap & Hap & Hup). apply in_adjacent_pairs in Hap.
    destruct Hap as (l & r' & Hl & Hr' & Hint & Hne & Hap).
    assert (Hright : up = {| adj := ap; use_right := get col r' |}).
    { destruct Hup as [([u i] & Hu' & Hon & Hup) | (Hnone & _)].
      - unfold right_uses in Hu'. apply in_map_iff in Hu'.
        destruct Hu' as (r'' & E & Hr''). inversion E; subst u i. clear E.
        simpl in Hon. apply value_eqb_eq in Hon. subst ap. simpl in Hon.
        assert (r' = r'') by
          (apply (NoDup_map_inj (get "unique_id") (rows gdf)); auto).
        now subst r''.
      - exfalso.
        specialize (Hnone (get col r', get "unique_id" r')).
        simpl in Hnone. subst ap. simpl in Hnone.
        rewrite value_eqb_refl in Hnone.
        assert (true = false); [|discriminate]. apply Hnone.
        unfold right_uses. apply in_map_iff. now exists r'. }
    subst up ap. simpl in *.
    assert (l = r) by
      (apply (NoDup_map_inj (get "unique_id") (rows gdf)); auto).
    subst l. exists r'. split; [|exact Hm].
    apply filter_In. split; [exact Hr'|]. now rewrite Hint, Hne.
  - intros (r' & Hnb & Hm). apply filter_In in Hnb.
    destruct Hnb as [Hr' Hc]. apply andb_true_iff in Hc.
    destruct Hc as [Hint Hne].
    set (ap := {| unique_id_left := get "unique_id" r;
                  use_left := get col r;
                  unique_id_right := get "unique_id" r' |}).
    set (up := {| adj := ap; use_right := get col r' |}).
    exists {| uses := up; score := Some s |}. split; [reflexivity|].
    apply filter_In. split; [|simpl; apply value_eqb_refl].
    unfold scored_pairs. apply in_merge_left. exists up. split.
    + unfold with_right_uses. apply in_merge_left. exists ap. split.
      * apply in_adjacent_pairs. exists r, r'. auto.
      * left. exists (get col r', get "unique_id" r'). split; [|split].
        -- unfold right_uses. apply in_map_iff. now exists r'.
        -- simpl. apply value_eqb_refl.
        -- reflexivity.
    + left. exists (get col r, get col r', Some s). split; [|split].
      * now apply in_matrix_long.
      * simpl. now rewrite !value_eqb_refl.
      * reflexivity.
Qed.

(* ---------------------------------------------------------------- *)
(** ** The cast and the scored table *)

Lemma integral_cast (q : Q) :
  integral q = true ->
  astype_Int64 q = Ok (Qnum (Qred q)) /\ (inject_Z (Qnum (Qred q)) == q)%Q.
Proof.
  unfold integral, astype_Int64. intros H. cbv zeta.
  apply andb_true_iff in H. destruct H as [H Hb]. apply Z.leb_le in Hb.
  rewrite H. split.
  - replace (-9223372036854775808 <=? Qnum (Qred q)) with true
      by (symmetry; apply Z.leb_le; lia).
    replace (Qnum (Qred q) <? 9223372036854775808) with true
      by (symmetry; apply Z.ltb_lt; lia).
    reflexivity.
  - apply Pos.eqb_eq in H. rewrite <- (Qred_correct q) at 2.
    destruct (Qred q) as [n k]. simpl in *. subst k. reflexivity.
Qed.

Lemma matrix_maps_integral (m : Matrix) (a b : value) (s : Q) :
  matrix_integral m = true -> matrix_maps m a b s -> integral s = true.
Proof.
  unfold matrix_integral, matrix_maps, cell_at.
  intros Hall (i & j & _ & _ & Hc).
  destruct (nth_error (data m) i) as [line|] eqn:Hline; [|discriminate].
  apply nth_error_In in Hline, Hc. rewrite forallb_forall in Hall.
  specialize (Hall line Hline). rewrite forallb_forall in Hall.
  exact (Hall (Some s) Hc).
Qed.

Lemma attached_integral (col : string) (gdf : GeoDataFrame) (m : Matrix)
      (d : distance) (r : Row) :
  matrix_integral m = true ->
  integral (fillna 5 (attached (run_scored_pairs col gdf m d) r)) = true.
Proof.
  intros Hm. unfold attached.
  destruct (notnull (get "unique_id" r)); [|reflexivity].
  destruct (min_skipna _) as [q|] eqn:E; [|reflexivity].
  apply min_skipna_some in E. destruct E as [Hin _].
  unfold group_scores in Hin. apply in_map_iff in Hin.
  destruct Hin as (p & Hs & Hp). apply filter_In in Hp. destruct Hp as [Hp _].
  simpl. eapply matrix_maps_integral; [exact Hm|].
  eapply scored_pairs_directional; [exact Hp | exact Hs].
Qed.

(** With integer matrix cells the run reaches the scored table, whose rows
    are the parcels, each finished with its own score. *)
Lemma score_parcels_ok (col : string) (gdf0 : GeoDataFrame) (m : Matrix)
      (d : distance) :
  has_column "compat_score" gdf0 = false -> matrix_integral m = true ->
  score_parcels col gdf0 m d =
  Ok {| crs := crs gdf0;
        columns := filter (fun k => negb (String.eqb k "unique_id"))
                          (columns (ensure_unique_id gdf0) ++ ["compat_score"]);
        rows := map (finish (run_scored_pairs col (ensure_unique_id gdf0) m d))
                    (rows (ensure_unique_id gdf0)) |}.
Proof.
  intros Hc Hm. unfold score_parcels. cbv zeta.
  rewrite (has_column_ensure "compat_score") by discriminate. rewrite Hc.
  fold (run_scored_pairs col (ensure_unique_id gdf0) m d).
  rewrite merge_scores_attached, map_map. cbn [fst snd].
  set (sp := run_scored_pairs col (ensure_unique_id gdf0) m d).
  rewrite (traverse_ok _
             (fun rs => set_cell "compat_score"
                          (VInt (Qnum (Qred (snd rs)))) (fst rs))).
  - cbn [bind]. unfold drop_column. cbn [crs columns rows].
    rewrite crs_ensure, !map_map. reflexivity.
  - intros rs Hrs. apply in_map_iff in Hrs. destruct Hrs as (r & E & _).
    subst rs. cbn [fst snd].
    destruct (integral_cast _ (attached_integral
                                 col (ensure_unique_id gdf0) m d r Hm)) as [E _].
    fold sp in E. now rewrite E.
Qed.

Lemma get_finish (sp : list ScoredPair) (r : Row) :
  get "compat_score" (finish sp r) =
  VInt (Qnum (Qred (fillna 5 (attached sp r)))).
Proof.
  unfold finish, get, drop_cell, set_cell. cbn [cells].
  rewrite lookup_drop_other by discriminate. apply lookup_assign_same.
Qed.

Lemma compat_score_of_ok (col : string) (gdf0 : GeoDataFrame) (m : Matrix)
      (d : distance) (i : nat) (r : Row) :
  has_column "compat_score" gdf0 = false -> matrix_integral m = true ->
  nth_error (rows (ensure_unique_id gdf0)) i = Some r ->
  compat_score_of (score_parcels col gdf0 m d) i =
  Some (Qnum (Qred (fillna 5
          (attached (run_scored_pairs col (ensure_unique_id gdf0) m d) r)))).
Proof.
  intros Hc Hm Hr. rewrite (score_parcels_ok _ _ _ _ Hc Hm).
  unfold compat_score_of. cbn [rows].
  rewrite nth_error_map, Hr. cbn [option_map]. now rewrite get_finish.
Qed.

(** A parcel with no resolved score gets the default. *)
Lemma compat_default (col : string) (gdf0 : GeoDataFrame) (m : Matrix)
      (d : distance) (i : nat) (r : Row) :
  unique_ids gdf0 = true -> matrix_integral m = true ->
  has_column "compat_score" gdf0 = false ->
  nth_error (rows (ensure_unique_id gdf0)) i = Some r ->
  (forall s, ~ resolved_score col (ensure_unique_id gdf0) m d r s) ->
  compat_score_of (score_parcels col gdf0 m d) i = Some 5.
Proof.
  intros Hu Hm Hc Hr Hnone.
  rewrite (compat_score_of_ok _ _ _ _ _ _ Hc Hm Hr).
  assert (E : attached (run_scored_pairs col (ensure_unique_id gdf0) m d) r
              = None).
  { unfold attached. destruct (notnull (get "unique_id" r)); [|reflexivity].
    apply min_skipna_none. intros s Hs. apply (Hnone s).
    apply group_resolved; [exact Hu | eapply nth_error_In; exact Hr | exact Hs]. }
  rewrite E. reflexivity.
Qed.

(** A parcel with a resolved score gets the least of them. *)
Lemma compat_minimum (col : string) (gdf0 : GeoDataFrame) (m : Matrix)
      (d : distance) (i : nat) (r : Row) :
  unique_ids gdf0 = true -> matrix_integral m = true ->
  has_column "compat_score" gdf0 = false ->
  nth_error (rows (ensure_unique_id gdf0)) i = Some r ->
  (exists s, resolved_score col (ensure_unique_id gdf0) m d r s) ->
  exists z s0,
    compat_score_of (score_parcels col gdf0 m d) i = Some z /\
    resolved_score col (ensure_unique_id gdf0) m d r s0 /\
    (inject_Z z == s0)%Q /\
    (forall s, resolved_score col (ensure_unique_id gdf0) m d r s ->
               (inject_Z z <= s)%Q).
Proof.
  intros Hu Hm Hc Hr (s1 & Hs1).
  pose proof (nth_error_In _ _ Hr) as Hin.
  destruct (unique_ids_NoDup _ Hu) as [_ Hnn].
  rewrite (compat_score_of_ok _ _ _ _ _ _ Hc Hm Hr).
  pose proof (attached_integral col (ensure_unique_id gdf0) m d r Hm) as Hi.
  revert Hi. unfold attached. rewrite (Hnn r Hin).
  destruct (min_skipna _) as [q|] eqn:E.
  - intros Hi. cbn [fillna] in *. apply min_skipna_some in E.
    destruct E as [Hq Hle]. destruct (integral_cast q Hi) as [_ Heq].
    exists (Qnum (Qred q)), q. split; [reflexivity|]. split; [|split].
    + now apply group_resolved.
    + exact Heq.
    + intros s Hs. rewrite Heq. apply Hle. now apply group_resolved.
  - exfalso. apply (proj1 (min_skipna_none _) E s1).
    now apply group_resolved.
Qed.

(* ---------------------------------------------------------------- *)
(** ** Lookups *)

Lemma unresolved_iff (m : Matrix) (a b : value) :
  unresolved m a b <-> (forall s, ~ matrix_maps m a b s).
Proof.
  unfold unresolved, lookup_rows. split.
  - intros H s Hm. apply in_matrix_long in Hm.
    assert (E : snd (a, b, Some s) = None); [|discriminate].
    apply H. apply filter_In. split; [exact Hm|].
    simpl. now rewrite !value_eqb_refl.
  - intros H [[u1 u2] [q|]] Hin; [|reflexivity]. exfalso.
    apply filter_In in Hin. destruct Hin as [Hin Hk].
    simpl in Hk. apply andb_true_iff in Hk. destruct Hk as [H1 H2].
    apply value_eqb_eq in H1, H2. subst u1 u2.
    apply (H q). now apply in_matrix_long.
Qed.

Lemma blank_pair_unmapped (m : Matrix) (a b : value) (s : Q) :
  blank_pair m a b -> ~ matrix_maps m a b s.
Proof.
  intros [_ Hb] (i & j & Hi & Hj & Hc). rewrite (Hb i j Hi Hj) in Hc.
  discriminate.
Qed.

Lemma absent_pair_unmapped (m : Matrix) (a b : value) (s : Q) :
  absent_pair m a b -> ~ matrix_maps m a b s.
Proof.
  intros [Ha | Hb] (i & j & Hi & Hj & _).
  - apply Ha. eapply nth_error_In; exact Hi.
  - apply Hb. eapply nth_error_In; exact Hj.
Qed.

(** No row of the melted matrix is joined to a pair the matrix has no line
    or no column for. *)
Lemma absent_pair_no_rows (m : Matrix) (a b : value) :
  absent_pair m a b -> lookup_rows m a b = [].
Proof.
  intros Habs. unfold lookup_rows.
  destruct (filter _ _) as [|e t] eqn:E; [reflexivity|]. exfalso.
  assert (Hin : In e (e :: t)) by now left.
  rewrite <- E in Hin. apply filter_In in Hin. destruct Hin as [Hin Hk].
  apply andb_true_iff in Hk. destruct Hk as [H1 H2].
  apply value_eqb_eq in H1, H2. apply matrix_long_labels in Hin.
  rewrite <- H1, <- H2 in Hin. destruct Habs; tauto.
Qed.

(** A scored pair whose ordered pair of uses the matrix does not map has a
    missing score. *)
Lemma scored_pair_unresolved (pairs : list UsePair) (m : Matrix)
      (p : ScoredPair) :
  In p (scored_pairs pairs (matrix_long m)) ->
  (forall s, ~ matrix_maps m (use_left (adj (uses p))) (use_right (uses p)) s) ->
  score p = None.
Proof.
  intros Hin Hno. destruct (score p) as [s|] eqn:E; [|reflexivity].
  exfalso. apply (Hno s). eapply scored_pairs_directional; eassumption.
Qed.

(* ---------------------------------------------------------------- *)
(** ** The key check of the lookup *)

Lemma object_dtype_text (l : list value) :
  forallb is_str l = true -> l <> [] -> object_dtype l = true.
Proof.
  destruct l as [|x t]; [congruence|]. simpl. intros H _.
  apply andb_true_iff in H. destruct H as [H _]. now rewrite H.
Qed.

Lemma keys_conflict_text (lc lk rc rk : list value) :
  forallb is_str lc = true -> forallb is_str rc = true ->
  (lk <> [] -> lc <> []) -> (rk <> [] -> rc <> []) ->
  keys_conflict lc lk rc rk = false.
Proof.
  intros Hl Hr Hlk Hrk. unfold keys_conflict.
  destruct lk as [|x lk']; [reflexivity|].
  destruct rk as [|y rk']; [reflexivity|]. cbn [nonempty andb].
  rewrite (object_dtype_text lc Hl) by (apply Hlk; discriminate).
  rewrite (object_dtype_text rc Hr) by (apply Hrk; discriminate).
  reflexivity.
Qed.

Lemma adjacent_pairs_empty (col : string) (gdf : GeoDataFrame) (d : distance) :
  rows gdf = [] -> adjacent_pairs col gdf d = [].
Proof. intros E. unfold adjacent_pairs, sjoin. now rewrite E. Qed.


(** String labels on both sides pass the check. *)
Lemma lookup_keys_conflict_text (col : string) (gdf0 : GeoDataFrame)
      (m : Matrix) (d : distance) :
  text_keys col gdf0 m = true ->
  lookup_keys_conflict col (ensure_unique_id gdf0) m d = false.
Proof.
  unfold text_keys. intros H. apply andb_true_iff in H.
  destruct H as [H Hh]. apply andb_true_iff in H. destruct H as [Hu Hl].
  set (gdf := ensure_unique_id gdf0) in *.
  unfold lookup_keys_conflict. cbv zeta.
  assert (Hrows : forall (A : Type) (f : UsePair -> A),
             map f (with_right_uses (adjacent_pairs col gdf d)
                                    (right_uses col gdf)) <> [] ->
             map (get col) (rows gdf) <> []).
  { intros A f Hne Hnil. apply Hne. apply map_eq_nil in Hnil.
    now rewrite (adjacent_pairs_empty col gdf d Hnil). }
  assert (Hlong : forall e, In e (matrix_long m) ->
                            row_labels m <> [] /\ header m <> []).
  { intros e He. apply matrix_long_labels in He. destruct He as [H1 H2].
    split; intros Hnil; rewrite Hnil in *; contradiction. }
  apply orb_false_iff. split; apply keys_conflict_text; auto.
  - apply Hrows.
  - intros Hne Hnil. destruct (matrix_long m) as [|e t] eqn:E;
      [now apply Hne|].
    now apply (proj1 (Hlong e (or_introl eq_refl))).
  - apply Hrows.
  - intros Hne Hnil. destruct (matrix_long m) as [|e t] eqn:E;
      [now apply Hne|].
    now apply (proj2 (Hlong e (or_introl eq_refl))).
Qed.

Lemma scoring_stage_text (col : string) (gdf0 : GeoDataFrame) (m : Matrix)
      (d : distance) :
  text_keys col gdf0 m = true ->
  scoring_stage col gdf0 m d = score_parcels col gdf0 m d.
Proof.
  intros H. unfold scoring_stage.
  now rewrite (lookup_keys_conflict_text col gdf0 m d H).
Qed.

(** A label that both sides of a key hold, and that is not missing, makes
    the check pass for that key. *)
Lemma keys_conflict_shared (lc lk rc rk : list value) (v : value) :
  notnull v = true -> In v lc -> In v lk -> In v rc -> In v rk ->
  keys_conflict lc lk rc rk = false.
Proof.
  intros Hv Hlc Hlk Hrc Hrk. unfold keys_conflict.
  destruct v as [|z|t]; [discriminate| |].
  - assert (Hint : forall l, In (VInt z) l -> string_like l = false).
    { intros l Hl. unfold string_like. apply negb_false_iff.
      apply existsb_exists. exists (VInt z). now split. }
    rewrite (Hint lk Hlk), (Hint rk Hrk).
    destruct (object_dtype lc), (object_dtype rc);
      now rewrite ?andb_false_r.
  - assert (Hobj : forall l, In (VStr t) l -> object_dtype l = true).
    { intros l Hl. unfold object_dtype. apply existsb_exists.
      exists (VStr t). now split. }
    rewrite (Hobj lc Hlc), (Hobj rc Hrc). cbn [negb andb].
    now rewrite andb_false_r.
Qed.

(** Every neighbour of a parcel gives a pair of the lookup table. *)
Lemma neighbour_use_pair (col : string) (gdf : GeoDataFrame) (d : distance)
      (r r' : Row) :
  In r (rows gdf) -> In r' (spec_neighbours gdf d r) ->
  In {| adj := {| unique_id_left := get "unique_id" r;
                  use_left := get col r;
                  unique_id_right := get "unique_id" r' |};
        use_right := get col r' |}
     (with_right_uses (adjacent_pairs col gdf d) (right_uses col gdf)).
Proof.
  intros Hr Hnb. unfold spec_neighbours in Hnb. apply filter_In in Hnb.
  destruct Hnb as [Hr' Hc]. apply andb_true_iff in Hc.
  destruct Hc as [Hint Hne].
  unfold with_right_uses. apply in_merge_left.
  exists {| unique_id_left := get "unique_id" r;
            use_left := get col r;
            unique_id_right := get "unique_id" r' |}. split.
  - apply in_adjacent_pairs. exists r, r'. auto.
  - left. exists (get col r', get "unique_id" r'). split; [|split].
    + unfold right_uses. apply in_map_iff. now exists r'.
    + simpl. apply value_eqb_refl.
    + reflexivity.
Qed.

(** A pair of classified parcels that the matrix resolves is enough for
    the lookup merge to accept its keys: the stage then runs as
    [score_parcels]. *)
Lemma resolved_pair_accepts_keys (col : string) (gdf : GeoDataFrame)
      (m : Matrix) (d : distance) (r r' : Row) (s : Q) :
  In r (rows gdf) -> In r' (spec_neighbours gdf d r) ->
  matrix_maps m (get col r) (get col r') s ->
  notnull (get col r) = true -> notnull (get col r') = true ->
  lookup_keys_conflict col gdf m d = false.
Proof.
  intros Hr Hnb Hm Hn Hn'.
  pose proof (neighbour_use_pair col gdf d r r' Hr Hnb) as Hpair.
  pose proof (proj2 (in_matrix_long m _ _ s) Hm) as Hlong.
  assert (Hr' : In r' (rows gdf)).
  { unfold spec_neighbours in Hnb. apply filter_In in Hnb. tauto. }
  destruct Hm as (i & j & Hi & Hj & _).
  apply nth_error_In in Hi, Hj.
  unfold lookup_keys_conflict. cbv zeta. apply orb_false_iff. split.
  - apply (keys_conflict_shared _ _ _ _ (get col r) Hn).
    + now apply in_map.
    + apply in_map_iff. eexists. split; [|exact Hpair]. reflexivity.
    + exact Hi.
    + apply in_map_iff. eexists. split; [|exact Hlong]. reflexivity.
  - apply (keys_conflict_shared _ _ _ _ (get col r') Hn').
    + now apply in_map.
    + apply in_map_iff. eexists. split; [|exact Hpair]. reflexivity.
    + exact Hj.
    + apply in_map_iff. eexists. split; [|exact Hlong]. reflexivity.
Qed.

Lemma scoring_stage_resolved (col : string) (gdf0 : GeoDataFrame)
      (m : Matrix) (d : distance) (r r' : Row) (s : Q) :
  In r (rows (ensure_unique_id gdf0)) ->
  In r' (spec_neighbours (ensure_unique_id gdf0) d r) ->
  matrix_maps m (get col r) (get col r') s ->
  notnull (get col r) = true -> notnull (get col r') = true ->
  scoring_stage col gdf0 m d = score_parcels col gdf0 m d.
Proof.
  intros Hr Hnb Hm Hn Hn'. unfold scoring_stage.
  now rewrite (resolved_pair_accepts_keys col _ m d r r' s Hr Hnb Hm Hn Hn').
Qed.

(** What the stage does is what the lookup merge allows: it raises
    [ValueError], or goes on as [score_parcels]. *)
Lemma scoring_stage_cases (col : string) (gdf0 : GeoDataFrame) (m : Matrix)
      (d : distance) :
  scoring_stage col gdf0 m d = Raise ValueError \/
  scoring_stage col gdf0 m d = score_parcels col gdf0 m d.
Proof.
  unfold scoring_stage. destruct (lookup_keys_conflict _ _ _ _); auto.
Qed.

Lemma scoring_stage_returns (col : string) (gdf0 : GeoDataFrame) (m : Matrix)
      (d : distance) (out : GeoDataFrame) :
  scoring_stage col gdf0 m d = Ok out -> score_parcels col gdf0 m d = Ok out.
Proof.
  intros H. destruct (scoring_stage_cases col gdf0 m d) as [E|E];
    rewrite E in H; [discriminate | exact H].
Qed.

(** The score of a parcel whose single neighbour resolves to one integer. *)
Lemma only_neighbour_score (col : string) (gdf0 : GeoDataFrame) (m : Matrix)
      (d : distance) (i : nat) (a b : Row) (z : Z) :
  unique_ids gdf0 = true -> matrix_integral m = true ->
  has_column "compat_score" gdf0 = false ->
  nth_error (rows (ensure_unique_id gdf0)) i = Some a ->
  spec_neighbours (ensure_unique_id gdf0) d a = [b] ->
  maps_only m (get col a) (get col b) z ->
  compat_score_of (score_parcels col gdf0 m d) i = Some z.
Proof.
  intros Hu Hm Hc Ha Hnb [(s & Hs) Honly].
  destruct (compat_minimum col gdf0 m d i a Hu Hm Hc Ha)
    as (z' & s0 & Hz & (r' & Hr' & Hs0) & Heq & _).
  - exists s, b. split; [rewrite Hnb; now left | exact Hs].
  - rewrite Hnb in Hr'. destruct Hr' as [E|[]]. subst r'.
    rewrite (Honly s0 Hs0) in Heq.
    apply (proj1 (inject_Z_injective z' z)) in Heq. congruence.
Qed.

(* ---------------------------------------------------------------- *)
(** ** Scoring and aggregation *)



(** C3. The lookup is directional: the score joined to an adjacency pair
    is the matrix entry of exactly the ordered pair (left use, right use);
    so, when the matrix records s1 for (A, B) and s2 for (B, A), a parcel
    of class A whose only neighbour has class B gets s1 and that neighbour,
    whose only neighbour is the first parcel, gets s2. *)
Theorem lookup_is_directional
        (col : string) (gdf0 : GeoDataFrame) (m : Matrix) (d : distance)
        (i j : nat) (a b : Row) (s1 s2 : Z) :
  unique_ids gdf0 = true -> matrix_integral m = true ->
  has_column "compat_score" gdf0 = false ->
  nth_error (rows (ensure_unique_id gdf0)) i = Some a ->
  nth_error (rows (ensure_unique_id gdf0)) j = Some b ->
  spec_neighbours (ensure_unique_id gdf0) d a = [b] ->
  spec_neighbours (ensure_unique_id gdf0) d b = [a] ->
  maps_only m (get col a) (get col b) s1 ->
  maps_only m (get col b) (get col a) s2 ->
  (forall p s,
      In p (run_scored_pairs col (ensure_unique_id gdf0) m d) ->
      score p = Some s ->
      matrix_maps m (use_left (adj (uses p))) (use_right (uses p)) s) /\
  compat_score_of (score_parcels col gdf0 m d) i = Some s1 /\
  compat_score_of (score_parcels col gdf0 m d) j = Some s2.
Proof.
  intros Hu Hm Hc Ha Hb Hna Hnb H1 H2. split; [|split].
  - intros p s Hp Hs. eapply scored_pairs_directional; [exact Hp | exact Hs].
  - exact (only_neighbour_score col gdf0 m d i a b s1 Hu Hm Hc Ha Hna H1).
  - exact (only_neighbour_score col gdf0 m d j b a s2 Hu Hm Hc Hb Hnb H2).
Qed.

(** C10. With class labels that are strings in the parcels and in the
    matrix, a class pair whose matrix cell is present but blank is looked
    up as unresolved, as a pair absent from the matrix is: no joined row
    carries a score, the scored pair has a missing score, it contributes
    nothing to the minimum, and a parcel all of whose pairs hit blank cells
    gets the default 5. *)
Theorem blank_cell_is_unresolved
        (col : string) (gdf0 : GeoDataFrame) (m : Matrix) (d : distance)
        (i : nat) (r : Row) :
  unique_ids gdf0 = true -> matrix_integral m = true ->
  has_column "compat_score" gdf0 = false ->
  text_keys col gdf0 m = true ->
  nth_error (rows (ensure_unique_id gdf0)) i = Some r ->
  (forall r', In r' (spec_neighbours (ensure_unique_id gdf0) d r) ->
              blank_pair m (get col r) (get col r')) ->
  (forall a b, blank_pair m a b \/ absent_pair m a b -> unresolved m a b) /\
  (forall p, In p (run_scored_pairs col (ensure_unique_id gdf0) m d) ->
             blank_pair m (use_left (adj (uses p))) (use_right (uses p)) \/
             absent_pair m (use_left (adj (uses p))) (use_right (uses p)) ->
             score p = None) /\
  (forall s, ~ resolved_score col (ensure_unique_id gdf0) m d r s) /\
  compat_score_of (scoring_stage col gdf0 m d) i = Some 5.
Proof.
  intros Hu Hm Hc Ht Hr Hblank.
  assert (Hnone : forall s, ~ resolved_score col (ensure_unique_id gdf0) m d r s).
  { intros s (r' & Hr' & Hs).
    exact (blank_pair_unmapped _ _ _ s (Hblank r' Hr') Hs). }
  assert (Hun : forall a b, blank_pair m a b \/ absent_pair m a b ->
                            forall s, ~ matrix_maps m a b s).
  { intros a b [Hb|Hb] s;
      [now apply blank_pair_unmapped | now apply absent_pair_unmapped]. }
  split; [|split; [|split]].
  - intros a b Hb. apply unresolved_iff. now apply Hun.
  - intros p Hp Hb. eapply scored_pair_unresolved; [exact Hp | now apply Hun].
  - exact Hnone.
  - rewrite (scoring_stage_text _ _ _ _ Ht).
    exact (compat_default col gdf0 m d i r Hu Hm Hc Hr Hnone).
Qed.

(* ---------------------------------------------------------------- *)
(** ** The neighbour finder *)

Lemma pair_present_iff (col : string) (gdf : GeoDataFrame) (d : distance)
      (x y : value) :
  pair_present (adjacent_pairs col gdf d) x y = true <->
  exists l r, In l (rows gdf) /\ In r (rows gdf) /\
              intersects (geometry l) (buffer (geometry r) d) = true /\
              value_neb (get "unique_id" l) (get "unique_id" r) = true /\
              get "unique_id" l = x /\ get "unique_id" r = y.
Proof.
  unfold pair_present. rewrite existsb_exists. split.
  - intros (p & Hp & Hk). apply in_adjacent_pairs in Hp.
    destruct Hp as (l & r & Hl & Hr & Hint & Hne & Hp). subst p.
    simpl in Hk. apply andb_true_iff in Hk. destruct Hk as [H1 H2].
    apply value_eqb_eq in H1, H2. exists l, r. auto 7.
  - intros (l & r & Hl & Hr & Hint & Hne & Hx & Hy).
    exists {| unique_id_left := get "unique_id" l;
              use_left := get col l;
              unique_id_right := get "unique_id" r |}. split.
    + apply in_adjacent_pairs. exists l, r. auto.
    + simpl. subst x y. now rewrite !value_eqb_refl.
Qed.

(** The join and the identifier filter treat the two directions alike:
    where the library's two tests agree on a pair of parcels, both
    directed pairs are found. *)
Lemma both_directions_present (col : string) (gdf : GeoDataFrame)
      (d : distance) (l r : Row) :
  In l (rows gdf) -> In r (rows gdf) ->
  value_neb (get "unique_id" l) (get "unique_id" r) = true ->
  intersects (geometry l) (buffer (geometry r) d) = true ->
  intersects (geometry r) (buffer (geometry l) d) = true ->
  pair_present (adjacent_pairs col gdf d)
               (get "unique_id" l) (get "unique_id" r) = true /\
  pair_present (adjacent_pairs col gdf d)
               (get "unique_id" r) (get "unique_id" l) = true.
Proof.
  intros Hl Hr Hne Hlr Hrl. split; apply pair_present_iff.
  - exists l, r. auto 7.
  - exists r, l. rewrite value_neb_sym. auto 7.
Qed.

(** X1. Self-exclusion: whatever the distance, zero included, no parcel is
    paired with itself; the directed pair (x, x) of a present identifier is
    never among the adjacency pairs. *)
Lemma no_self_pair (col : string) (gdf : GeoDataFrame) (d : distance)
      (x : value) :
  notnull x = true -> pair_present (adjacent_pairs col gdf d) x x = false.
Proof.
  intros Hx. destruct (pair_present _ x x) eqn:E; [|reflexivity].
  apply pair_present_iff in E.
  destruct E as (l & r & _ & _ & _ & Hne & Hl & Hr).
  rewrite Hl, Hr in Hne. destruct x; simpl in *; try discriminate.
  - now rewrite Z.eqb_refl in Hne.
  - now rewrite String.eqb_refl in Hne.
Qed.

(* ---------------------------------------------------------------- *)
(** ** Whole runs *)

Lemma score_parcels_table (col : string) (gdf0 : GeoDataFrame) (m : Matrix)
      (d : distance) :
  has_column "compat_score" gdf0 = false -> matrix_integral m = true ->
  score_parcels col gdf0 m d = Ok (scored_table col gdf0 m d).
Proof. apply score_parcels_ok. Qed.

Lemma columns_check_crs (gdf : GeoDataFrame) :
  columns (snd (check_crs gdf)) = columns gdf.
Proof.
  unfold check_crs. destruct (crs gdf) as [c|]; [|reflexivity].
  now destruct (is_geographic c).
Qed.

Lemma has_column_check_crs (c : string) (gdf : GeoDataFrame) :
  has_column c (snd (check_crs gdf)) = has_column c gdf.
Proof. unfold has_column. now rewrite columns_check_crs. Qed.

Lemma rows_check_crs (gdf : GeoDataFrame) :
  rows (snd (check_crs gdf)) =
  map (fun r => {| geometry := prepared_geometry gdf (geometry r);
                   cells := cells r |}) (rows gdf).
Proof.
  unfold check_crs, prepared_geometry.
  assert (Hid : rows gdf = map (fun r => {| geometry := geometry r;
                                            cells := cells r |}) (rows gdf)).
  { rewrite <- (map_id (rows gdf)) at 1. apply map_ext. now intros []. }
  destruct (crs gdf) as [c|]; [|exact Hid].
  destruct (is_geographic c); [reflexivity | exact Hid].
Qed.

(** Re-projection leaves the land uses as they are. *)
Lemma land_uses_check_crs (col : string) (gdf : GeoDataFrame) :
  map (get col) (rows (ensure_unique_id (snd (check_crs gdf)))) =
  map (get col) (rows (ensure_unique_id gdf)).
Proof.
  unfold ensure_unique_id. rewrite has_column_check_crs.
  destruct (has_column "unique_id" gdf).
  - rewrite rows_check_crs, map_map. reflexivity.
  - unfold set_column. cbn [rows]. rewrite rows_check_crs, !map_map, length_map.
    generalize (map VInt (range 0 (List.length (rows gdf)))).
    induction (rows gdf) as [|r t IH]; intros [|v vals]; simpl;
      try reflexivity.
    f_equal. apply IH.
Qed.

Lemma text_keys_check_crs (col : string) (gdf : GeoDataFrame) (m : Matrix) :
  text_keys col (snd (check_crs gdf)) m = text_keys col gdf m.
Proof. unfold text_keys. now rewrite land_uses_check_crs. Qed.

Lemma run_analysis_completes (col : string) (gdf : GeoDataFrame) (m : Matrix)
      (d : distance) :
  has_column col gdf = true -> has_column "compat_score" gdf = false ->
  matrix_integral m = true -> text_keys col gdf m = true ->
  run_analysis (Some gdf) (Some m) col d =
  (complete_log col gdf d,
   Completed (scored_table col (snd (check_crs gdf)) m d)
             (generate_reports (scored_table col (snd (check_crs gdf)) m d) col)).
Proof.
  intros Hcol Hc Hm Ht. unfold run_analysis. rewrite Hcol. cbn [negb].
  cbv zeta. rewrite scoring_stage_text by now rewrite text_keys_check_crs.
  rewrite score_parcels_table; [|now rewrite has_column_check_crs|exact Hm].
  unfold complete_log. now rewrite <- !app_assoc.
Qed.

(** C8 (amended). With class labels that are strings in the parcels and
    in the matrix, and a matrix whose present cells are integers, whether
    inside 1..5 or not, and whose other cells are blank, scoring and
    aggregation reach the scored table and the run, on parcels whose CRS
    step goes through, does not raise. *)
Theorem integer_matrix_never_raises
        (col : string) (gdf : GeoDataFrame) (m : Matrix) (d : distance) :
  matrix_integral m = true -> text_keys col gdf m = true ->
  has_column "compat_score" gdf = false ->
  (exists out, scoring_stage col gdf m d = Ok out /\
               List.length (rows out) = List.length (rows gdf)) /\
  (crs_usable gdf = true ->
   forall e, snd (run_analysis (Some gdf) (Some m) col d) <> Raised e).
Proof.
  intros Hm Ht Hc. split.
  - exists (scored_table col gdf m d). split.
    + rewrite (scoring_stage_text _ _ _ _ Ht). now apply score_parcels_table.
    + unfold scored_table. cbn [rows]. rewrite length_map.
      apply length_rows_ensure.
  - intros _ e. destruct (has_column col gdf) eqn:Hcol.
    + rewrite (run_analysis_completes col gdf m d Hcol Hc Hm Ht). discriminate.
    + unfold run_analysis. rewrite Hcol. discriminate.
Qed.

(* ---------------------------------------------------------------- *)
(** ** The summary tables *)

Lemma insert_sorted (x : Z) (l : list Z) :
  Sorted Z.le l -> Sorted Z.le (insert_by Z.leb x l).
Proof.
  induction l as [|a t IH]; intros H; simpl.
  - repeat constructor.
  - destruct (Z.leb x a) eqn:E.
    + constructor; [exact H|]. constructor. now apply Z.leb_le.
    + apply Z.leb_gt in E. inversion H as [|? ? Ht Hhd]; subst.
      constructor; [now apply IH|].
      destruct t as [|b u]; simpl.
      * constructor. lia.
      * inversion Hhd; subst. destruct (Z.leb x b); constructor; lia.
Qed.

Lemma sort_sorted (l : list Z) : Sorted Z.le (sort_by Z.leb l).
Proof.
  induction l as [|x t IH]; simpl; [constructor | now apply insert_sorted].
Qed.

Lemma sorted_NoDup_strict (l : list Z) :
  Sorted Z.le l -> NoDup l -> StronglySorted Z.lt l.
Proof.
  intros Hs Hn. apply Sorted_StronglySorted in Hs; [|exact Z.le_trans].
  induction Hs as [|a t Ht IH Hall]; [constructor|].
  inversion Hn as [|? ? Hnot Hn']; subst. constructor; [now apply IH|].
  rewrite Forall_forall in *. intros y Hy.
  specialize (Hall y Hy). assert (a <> y) by (intros ->; contradiction). lia.
Qed.

Lemma strict_sorted_ext (l1 l2 : list Z) :
  StronglySorted Z.lt l1 -> StronglySorted Z.lt l2 ->
  (forall x, In x l1 <-> In x l2) -> l1 = l2.
Proof.
  intros H1. revert l2. induction H1 as [|a t1 Ht1 IH Ha]; intros l2 H2 Hext.
  - destruct l2 as [|b t2]; [reflexivity|].
    exfalso. apply (proj2 (Hext b)). now left.
  - destruct H2 as [|b t2 Ht2 Hb].
    + exfalso. apply (proj1 (Hext a)). now left.
    + rewrite Forall_forall in Ha, Hb.
      assert (Hab : a = b).
      { destruct (proj1 (Hext a) (or_introl eq_refl)) as [E|Hin]; [now symmetry|].
        destruct (proj2 (Hext b) (or_introl eq_refl)) as [E|Hin']; [exact E|].
        specialize (Ha b Hin'). specialize (Hb a Hin). lia. }
      subst b. f_equal. apply IH; [exact Ht2|].
      intros x. split; intros Hx.
      * destruct (proj1 (Hext x) (or_intror Hx)) as [E|Hin]; [|exact Hin].
        subst x. specialize (Ha a Hx). lia.
      * destruct (proj2 (Hext x) (or_intror Hx)) as [E|Hin]; [|exact Hin].
        subst x. specialize (Hb a Hx). lia.
Qed.

Lemma ensure_columns_in (add cols : list Z) (s : Z) :
  In s (fold_left (fun cols s => if existsb (Z.eqb s) cols then cols
                                 else cols ++ [s]) add cols) <->
  In s cols \/ In s add.
Proof.
  revert cols. induction add as [|a t IH]; intros cols; simpl; [tauto|].
  rewrite IH. destruct (existsb (Z.eqb a) cols) eqn:E.
  - apply existsb_exists in E. destruct E as (y & Hy & E).
    apply Z.eqb_eq in E. subst y. intuition (subst; auto).
  - rewrite in_app_iff. simpl. tauto.
Qed.

Lemma ensure_columns_NoDup (add cols : list Z) :
  NoDup cols ->
  NoDup (fold_left (fun cols s => if existsb (Z.eqb s) cols then cols
                                  else cols ++ [s]) add cols).
Proof.
  revert cols. induction add as [|a t IH]; intros cols Hn; simpl; [exact Hn|].
  apply IH. destruct (existsb (Z.eqb a) cols) eqn:E; [exact Hn|].
  apply NoDup_app; [exact Hn | repeat constructor; intros [] |].
  intros x Hx [Hx'|[]]. subst x.
  assert (existsb (Z.eqb a) cols = true); [|congruence].
  apply existsb_exists. exists a. split; [exact Hx | apply Z.eqb_refl].
Qed.

Lemma in_range_1_5 (s : Z) : In s (range 1 5) <-> 1 <= s <= 5.
Proof.
  change (range 1 5) with [1; 2; 3; 4; 5]. simpl. lia.
Qed.

Lemma Z_eqb_eq (x y : Z) : Z.eqb x y = true <-> x = y.
Proof. apply Z.eqb_eq. Qed.

Lemma score_columns_in (col : string) (gdf : GeoDataFrame) (s : Z) :
  In s (score_columns (detailed_breakdown col gdf)) <->
  1 <= s <= 5 \/ In s (map snd (classified col gdf)).
Proof.
  unfold detailed_breakdown. cbn [score_columns]. split.
  - intros H. apply (Permutation_in _ (sort_by_perm _ _)) in H.
    apply ensure_columns_in in H. destruct H as [H|H].
    + right. apply (Permutation_in _ (sort_by_perm _ _)) in H.
      exact (proj1 (in_distinct Z.eqb Z_eqb_eq _ _) H).
    + left. now apply in_range_1_5.
  - intros H. apply (Permutation_in _ (Permutation_sym (sort_by_perm _ _))).
    apply ensure_columns_in. destruct H as [H|H].
    + right. now apply in_range_1_5.
    + left. apply (Permutation_in _ (Permutation_sym (sort_by_perm _ _))).
      now apply (in_distinct Z.eqb Z_eqb_eq).
Qed.

Lemma score_columns_sorted (col : string) (gdf : GeoDataFrame) :
  StronglySorted Z.lt (score_columns (detailed_breakdown col gdf)).
Proof.
  unfold detailed_breakdown. cbn [score_columns].
  apply sorted_NoDup_strict; [apply sort_sorted|].
  eapply Permutation_NoDup; [symmetry; apply sort_by_perm|].
  apply ensure_columns_NoDup.
  eapply Permutation_NoDup; [symmetry; apply sort_by_perm|].
  apply (NoDup_distinct Z.eqb Z_eqb_eq).
Qed.

Lemma overall_scores (gdf : GeoDataFrame) :
  map compatibility_score (overall_summary gdf) = [1; 2; 3; 4; 5].
Proof.
  unfold overall_summary. cbv zeta. rewrite map_map.
  transitivity (map (fun s : Z => s) (range 1 5)); [|apply map_id].
  apply map_ext. intros s.
  destruct (find _ _) as [r|] eqn:E; [|reflexivity].
  apply find_some in E. destruct E as [_ E]. now apply Z.eqb_eq.
Qed.

Lemma overall_counts (gdf : GeoDataFrame) (row : SummaryRow) :
  In row (overall_summary gdf) ->
  parcel_count row =
  Z.of_nat (count_occ Z.eq_dec (compat_scores gdf) (compatibility_score row)).
Proof.
  unfold overall_summary, value_counts. cbv zeta. rewrite !map_map.
  intros H. apply in_map_iff in H. destruct H as (s & Hrow & _).
  destruct (find _ _) as [r|] eqn:E.
  - subst row. apply find_some in E. destruct E as [E _].
    apply in_map_iff in E. destruct E as (s' & Hr & _). now subst r.
  - subst row. cbn [parcel_count compatibility_score].
    rewrite (proj1 (count_occ_not_In Z.eq_dec _ _)); [reflexivity|].
    intros Hin.
    apply (proj2 (in_distinct Z.eqb Z_eqb_eq _ _)) in Hin.
    apply (Permutation_in _ (Permutation_sym (sort_by_perm Z.leb _))) in Hin.
    pose proof (find_none _ _ E) as Hnone.
    specialize (Hnone _ (in_map _ _ _ Hin)).
    cbn [compatibility_score fst] in Hnone. now rewrite Z.eqb_refl in Hnone.
Qed.

(** C5 (amended). The overall summary always has the five rows 1..5,
    each with the number of parcels at that score, zero where there is
    none.  The detailed breakdown has its score columns in strictly
    ascending order, one for each of 1..5 and one for every other
    [compat_score] that occurs among the classified parcels: exactly the
    five columns 1..5 when no score lies outside 1..5.  Each line holds
    the parcel count of its class under each column, and their total. *)
Theorem summary_tables_shape (gdf : GeoDataFrame) (col : string) :
  map compatibility_score (overall (generate_reports gdf col)) = [1; 2; 3; 4; 5] /\
  (forall row, In row (overall (generate_reports gdf col)) ->
               parcel_count row =
               Z.of_nat (count_occ Z.eq_dec (compat_scores gdf)
                                   (compatibility_score row))) /\
  StronglySorted Z.lt (score_columns (detailed (generate_reports gdf col))) /\
  (forall s, In s (score_columns (detailed (generate_reports gdf col))) <->
             1 <= s <= 5 \/ In s (map snd (classified col gdf))) /\
  ((forall s, In s (map snd (classified col gdf)) -> 1 <= s <= 5) ->
   score_columns (detailed (generate_reports gdf col)) = [1; 2; 3; 4; 5]) /\
  (forall line, In line (breakdown_rows (detailed (generate_reports gdf col))) ->
     snd (fst line) =
     map (fun s => Z.of_nat (List.length
                    (filter (fun k => value_eqb (fst k) (fst (fst line)) &&
                                      Z.eqb (snd k) s)
                            (classified col gdf))))
         (score_columns (detailed (generate_reports gdf col))) /\
     snd line = fold_right Z.add 0 (snd (fst line))).
Proof.
  cbn [generate_reports overall detailed].
  split; [apply overall_scores|]. split; [apply overall_counts|].
  split; [apply score_columns_sorted|]. split; [apply score_columns_in|].
  split.
  - intros Hin. apply strict_sorted_ext.
    + apply score_columns_sorted.
    + repeat constructor; lia.
    + intros s. rewrite score_columns_in. simpl. split.
      * intros [H|H]; [|apply Hin in H]; lia.
      * intros H. left. lia.
  - intros line Hl. unfold detailed_breakdown in Hl. cbn [breakdown_rows] in Hl.
    apply in_map_iff in Hl. destruct Hl as (u & Hline & _). subst line.
    cbn [fst snd]. split; reflexivity.
Qed.

(* ---------------------------------------------------------------- *)
(** ** Validation, coordinate reference systems and the frame *)








Lemma well_formed_keys (gdf : GeoDataFrame) (r : Row) :
  well_formed gdf = true -> In r (rows gdf) ->
  map fst (cells r) = columns gdf.
Proof.
  unfold well_formed. intros H Hr. rewrite forallb_forall in H.
  specialize (H r Hr). now destruct (list_eq_dec string_dec _ _).
Qed.

Lemma filter_absent (c : string) (l : list string) :
  ~ In c l -> filter (fun k => negb (String.eqb k c)) l = l.
Proof.
  induction l as [|k t IH]; simpl; intros H; [reflexivity|].
  destruct (String.eqb k c) eqn:E; simpl.
  - apply String.eqb_eq in E. tauto.
  - rewrite IH; tauto.
Qed.

Lemma finish_fresh (sp : list ScoredPair) (v : value) (r : Row) :
  ~ In "unique_id" (map fst (cells r)) ->
  ~ In "compat_score" (map fst (cells r)) ->
  exists z,
    finish sp (set_cell "unique_id" v r) =
    {| geometry := geometry r;
       cells := cells r ++ [("compat_score", VInt z)] |}.
Proof.
  intros Hu Hc. eexists. unfold finish, drop_cell, set_cell. cbn [geometry cells].
  f_equal. rewrite (assign_fresh "unique_id") by exact Hu.
  rewrite assign_fresh.
  - rewrite !filter_app, drop_fresh by exact Hu. cbn.
    rewrite app_nil_r. reflexivity.
  - rewrite map_app, in_app_iff. simpl. intros [H|[H|[]]]; [tauto | discriminate].
Qed.

Lemma finished_rows (sp : list ScoredPair) (prep : shape -> shape)
      (rs : list Row) (vals : list value) :
  List.length vals = List.length rs ->
  (forall r, In r rs -> ~ In "unique_id" (map fst (cells r)) /\
                        ~ In "compat_score" (map fst (cells r))) ->
  Forall2 (fun r_in r_out =>
             geometry r_out = prep (geometry r_in) /\
             exists z, cells r_out = cells r_in ++ [("compat_score", VInt z)])
          rs
          (map (finish sp)
               (map (fun rv => set_cell "unique_id" (snd rv) (fst rv))
                    (combine (map (fun r => {| geometry := prep (geometry r);
                                               cells := cells r |}) rs)
                             vals))).
Proof.
  revert vals. induction rs as [|r t IH]; intros [|v vals] Hlen Hfresh;
    simpl in Hlen; try discriminate; [constructor|].
  cbn [map combine fst snd]. constructor.
  - destruct (Hfresh r (or_introl eq_refl)) as [Hu Hc].
    destruct (finish_fresh sp v {| geometry := prep (geometry r);
                                   cells := cells r |} Hu Hc) as (z & E).
    rewrite E. cbn [geometry cells]. split; [reflexivity | now exists z].
  - apply IH; [lia|]. intros r' Hr'. apply Hfresh. now right.
Qed.

(** C9 (amended). For parcels that bring neither a [unique_id] nor a
    [compat_score] column, with inputs that scoring accepts (string class
    labels, integer scores) and coordinates that the library can project,
    the exported table has the input columns
    followed by [compat_score], and each of its rows is the input row with
    its cells unchanged and one integer [compat_score] cell appended.  The
    geometry is the input geometry, except that a geographic input is
    re-projected to the estimated UTM zone. *)
Theorem scored_table_keeps_attributes
        (col : string) (gdf : GeoDataFrame) (m : Matrix) (d : distance) :
  well_formed gdf = true -> has_column col gdf = true ->
  has_column "unique_id" gdf = false ->
  has_column "compat_score" gdf = false ->
  matrix_integral m = true -> text_keys col gdf m = true ->
  crs_usable gdf = true ->
  exists log out,
    run_analysis (Some gdf) (Some m) col d =
    (log, Completed out (generate_reports out col)) /\
    columns out = columns gdf ++ ["compat_score"] /\
    Forall2 (fun r_in r_out =>
               geometry r_out = prepared_geometry gdf (geometry r_in) /\
               exists z, cells r_out = cells r_in ++ [("compat_score", VInt z)])
            (rows gdf) (rows out) /\
    ((forall c, crs gdf = Some c -> is_geographic c = false) ->
     crs out = crs gdf /\ forall g, prepared_geometry gdf g = g).
Proof.
  intros Hwf Hcol Hu Hc Hm Ht _.
  exists (complete_log col gdf d), (scored_table col (snd (check_crs gdf)) m d).
  split; [now apply run_analysis_completes|].
  assert (Hu' : has_column "unique_id" (snd (check_crs gdf)) = false)
    by now rewrite has_column_check_crs.
  assert (Hnu : ~ In "unique_id" (columns gdf)).
  { intros H. apply has_column_in in H. congruence. }
  assert (Hnc : ~ In "compat_score" (columns gdf)).
  { intros H. apply has_column_in in H. congruence. }
  unfold scored_table, ensure_unique_id. rewrite Hu'.
  cbn [columns rows crs set_column]. rewrite Hu', columns_check_crs.
  split; [|split].
  - rewrite !filter_app, (filter_absent _ _ Hnu). cbn.
    now rewrite app_nil_r.
  - rewrite rows_check_crs. apply finished_rows.
    + unfold range. now rewrite !length_map, length_seq.
    + intros r Hr. rewrite (well_formed_keys gdf r Hwf Hr). now split.
  - intros Hgeo. unfold check_crs, prepared_geometry.
    destruct (crs gdf) as [c|] eqn:Hcrs; [|now split].
    rewrite (Hgeo c eq_refl). now split.
Qed.

End Properties.

(* ================================================================== *)
(** ** Further properties of the engine *)

Section Further.
Context {geo : Geometry} {pandas : Pandas}.

Lemma traverse_determined {A B : Type} (f : A -> exc B) (g : A -> B)
      (l : list A) (l' : list B) :
  (forall a b, In a l -> f a = Ok b -> b = g a) ->
  traverse f l = Ok l' ->
  l' = map g l /\ (forall a, In a l -> f a = Ok (g a)).
Proof.
  revert l'. induction l as [|a t IH]; intros l' Hg H; simpl in H.
  - inversion H. split; [reflexivity | intros a []].
  - destruct (f a) as [b|e] eqn:Ea; simpl in H; [|discriminate].
    destruct (traverse f t) as [bs|e] eqn:Et; simpl in H; [|discriminate].
    inversion H; subst l'. clear H.
    destruct (IH bs) as [Hbs Hall]; [|reflexivity|].
    + intros a' b' Ha'. apply Hg. now right.
    + pose proof (Hg a b (or_introl eq_refl) Ea) as Hb. subst b bs.
      split; [reflexivity|]. intros a' [<-|Ha']; [exact Ea | now apply Hall].
Qed.

Lemma astype_Int64_ok (q : Q) (z : Z) :
  astype_Int64 q = Ok z -> z = Qnum (Qred q) /\ (inject_Z z == q)%Q.
Proof.
  unfold astype_Int64. cbv zeta.
  destruct (Pos.eqb (Qden (Qred q)) 1) eqn:E; simpl; [|discriminate].
  destruct (_ && _); [|discriminate]. intros H. inversion H. split; [reflexivity|].
  apply Pos.eqb_eq in E. rewrite <- (Qred_correct q) at 2.
  destruct (Qred q) as [n k]. simpl in *. subst k. reflexivity.
Qed.

(** A run of the scoring stage that returns has produced the scored table,
    and every parcel's filled score went through the cast. *)
Lemma score_parcels_returns (col : string) (gdf0 : GeoDataFrame) (m : Matrix)
      (d : distance) (out : GeoDataFrame) :
  score_parcels col gdf0 m d = Ok out ->
  has_column "compat_score" gdf0 = false /\
  out = scored_table col gdf0 m d /\
  (forall r, In r (rows (ensure_unique_id gdf0)) ->
             exists z, astype_Int64
                         (fillna 5 (attached (run_scored_pairs
                                                col (ensure_unique_id gdf0) m d) r))
                       = Ok z).
Proof.
  unfold score_parcels. cbv zeta.
  rewrite (has_column_ensure "compat_score") by discriminate.
  destruct (has_column "compat_score" gdf0); [discriminate|].
  fold (run_scored_pairs col (ensure_unique_id gdf0) m d).
  rewrite merge_scores_attached, map_map. cbn [fst snd].
  set (sp := run_scored_pairs col (ensure_unique_id gdf0) m d).
  destruct (traverse _ _) as [cast|e] eqn:Et; simpl; [|discriminate].
  intros H. inversion H. clear H. split; [reflexivity|].
  apply (traverse_determined _
           (fun rs => set_cell "compat_score" (VInt (Qnum (Qred (snd rs))))
                               (fst rs))) in Et.
  - destruct Et as [Hcast Hall]. split.
    + subst cast. unfold scored_table, drop_column. cbn [crs columns rows].
      rewrite crs_ensure, !map_map. reflexivity.
    + intros r Hr.
      specialize (Hall (r, fillna 5 (attached sp r))). cbn [fst snd] in Hall.
      destruct (astype_Int64 (fillna 5 (attached sp r))) as [z|e] eqn:Ez.
      * now exists z.
      * exfalso. assert (Hin : In (r, fillna 5 (attached sp r))
                                  (map (fun x => (x, fillna 5 (attached sp x)))
                                       (rows (ensure_unique_id gdf0))))
          by (apply in_map_iff; now exists r).
        specialize (Hall Hin). discriminate.
  - intros [r q] b _. cbn [fst snd].
    destruct (astype_Int64 q) as [z|e] eqn:Ez; simpl; [|discriminate].
    intros Hb. inversion Hb. apply astype_Int64_ok in Ez. now destruct Ez as [-> _].
Qed.

Lemma compat_score_of_table (col : string) (gdf0 : GeoDataFrame) (m : Matrix)
      (d : distance) (i : nat) (r : Row) :
  nth_error (rows (ensure_unique_id gdf0)) i = Some r ->
  compat_score_of (Ok (scored_table col gdf0 m d)) i =
  Some (Qnum (Qred (fillna 5
          (attached (run_scored_pairs col (ensure_unique_id gdf0) m d) r)))).
Proof.
  intros Hr. unfold compat_score_of, scored_table. cbn [rows].
  rewrite nth_error_map, Hr. cbn [option_map]. now rewrite get_finish.
Qed.

Lemma returned_score_cases
        (col : string) (gdf0 : GeoDataFrame) (m : Matrix) (d : distance)
        (out : GeoDataFrame) (i : nat) (z : Z) :
  score_parcels col gdf0 m d = Ok out ->
  compat_score_of (Ok out) i = Some z ->
  (z = 5 \/ exists a b s, matrix_maps m a b s /\ (inject_Z z == s)%Q) /\
  ((forall a b s, matrix_maps m a b s -> (1 <= s /\ s <= 5)%Q) -> 1 <= z <= 5).
Proof.
  intros Hrun Hz.
  destruct (score_parcels_returns _ _ _ _ _ Hrun) as (_ & -> & Hcast).
  assert (Hr : exists r, nth_error (rows (ensure_unique_id gdf0)) i = Some r).
  { destruct (nth_error (rows (ensure_unique_id gdf0)) i) as [r|] eqn:E;
      [now exists r|].
    unfold compat_score_of, scored_table in Hz. cbn [rows] in Hz.
    rewrite nth_error_map, E in Hz. discriminate. }
  destruct Hr as (r & Hr). rewrite (compat_score_of_table _ _ _ _ _ _ Hr) in Hz.
  inversion Hz as [Hz']. clear Hz.
  destruct (Hcast r (nth_error_In _ _ Hr)) as (z' & Hz'').
  apply astype_Int64_ok in Hz''. destruct Hz'' as [-> Heq]. rewrite Hz' in Heq.
  set (sp := run_scored_pairs col (ensure_unique_id gdf0) m d) in *.
  assert (Hcases : z = 5 \/
                   exists a b s, matrix_maps m a b s /\ (inject_Z z == s)%Q).
  { unfold attached in *. destruct (notnull (get "unique_id" r)).
    - destruct (min_skipna _) as [q|] eqn:E.
      + right. apply min_skipna_some in E. destruct E as [Hin _].
        unfold group_scores in Hin. apply in_map_iff in Hin.
        destruct Hin as (p & Hs & Hp). apply filter_In in Hp.
        destruct Hp as [Hp _].
        exists (use_left (adj (uses p))), (use_right (uses p)), q.
        split; [|exact Heq].
        eapply scored_pairs_directional; [exact Hp | exact Hs].
      + left. now subst z.
    - left. now subst z. }
  rewrite Hz'. split; [exact Hcases|]. intros Hscale.
  destruct Hcases as [-> | (a & b & s & Hm & Hs)]; [lia|].
  destruct (Hscale a b s Hm) as [Hlo Hhi]. rewrite <- Hs in Hlo, Hhi.
  change 1%Q with (inject_Z 1) in Hlo. change 5%Q with (inject_Z 5) in Hhi.
  rewrite <- Zle_Qle in Hlo, Hhi. lia.
Qed.

(** X3. Scores are never invented: with a matrix of integer scores (of
    magnitude at most 2^53, which the float column holds exactly),
    whenever the scoring stage returns, the [compat_score] of a parcel is
    the default 5 or a score that the matrix records; so with all recorded
    scores on the scale 1..5 every [compat_score] is on the scale. *)
Theorem score_is_default_or_recorded
        (col : string) (gdf0 : GeoDataFrame) (m : Matrix) (d : distance)
        (out : GeoDataFrame) (i : nat) (z : Z) :
  matrix_integral m = true ->
  scoring_stage col gdf0 m d = Ok out ->
  compat_score_of (Ok out) i = Some z ->
  (z = 5 \/ exists a b s, matrix_maps m a b s /\ (inject_Z z == s)%Q) /\
  ((forall a b s, matrix_maps m a b s -> (1 <= s /\ s <= 5)%Q) -> 1 <= z <= 5).
Proof.
  intros _ Hrun. apply (returned_score_cases col gdf0 m d).
  now apply scoring_stage_returns.
Qed.

Lemma lookup_drop_same (c : string) (cs : list (string * value)) :
  lookup c (filter (fun kv => negb (String.eqb (fst kv) c)) cs) = VNull.
Proof.
  induction cs as [|[k x] t IH]; simpl; [reflexivity|].
  destruct (String.eqb k c) eqn:E; simpl; [exact IH | now rewrite E].
Qed.

Lemma ensure_rows_follow (gdf : GeoDataFrame) :
  Forall2 (fun r r' => geometry r' = geometry r /\
                       forall c, c <> "unique_id" -> get c r' = get c r)
          (rows gdf) (rows (ensure_unique_id gdf)).
Proof.
  unfold ensure_unique_id. destruct (has_column "unique_id" gdf).
  - induction (rows gdf); constructor; auto.
  - unfold set_column. cbn [rows].
    assert (Hlen : List.length (map VInt (range 0 (List.length (rows gdf))))
                   = List.length (rows gdf))
      by (unfold range; now rewrite !length_map, length_seq).
    revert Hlen. generalize (map VInt (range 0 (List.length (rows gdf)))).
    induction (rows gdf) as [|r t IH]; intros [|v vals] Hlen; simpl in *;
      try discriminate; constructor.
    + split; [reflexivity|]. intros c Hc. unfold get, set_cell. cbn [cells].
      apply lookup_assign_other. congruence.
    + apply IH. lia.
Qed.

(** X4. Parcels are neither dropped, duplicated nor reordered, whatever
    identifiers they carry: whenever the scoring stage returns, the rows of
    the scored table are the input rows in order, each with its geometry,
    with every attribute other than [unique_id] and [compat_score] as it
    was, an integer [compat_score], and no [unique_id]. *)
Theorem scored_rows_follow_parcels
        (col : string) (gdf0 : GeoDataFrame) (m : Matrix) (d : distance)
        (out : GeoDataFrame) :
  score_parcels col gdf0 m d = Ok out ->
  Forall2 (fun r_in r_out =>
             geometry r_out = geometry r_in /\
             (forall c, c <> "unique_id" -> c <> "compat_score" ->
                        get c r_out = get c r_in) /\
             (exists z, get "compat_score" r_out = VInt z) /\
             get "unique_id" r_out = VNull)
          (rows gdf0) (rows out).
Proof.
  intros Hrun.
  destruct (score_parcels_returns _ _ _ _ _ Hrun) as (_ & -> & _).
  unfold scored_table. cbn [rows].
  set (sp := run_scored_pairs col (ensure_unique_id gdf0) m d).
  pose proof (ensure_rows_follow gdf0) as H.
  induction H as [|r r' t t' [Hg Hc] _ IH]; simpl; constructor; [|exact IH].
  split; [exact Hg|]. split; [|split].
  - intros c Hu Hcs. unfold get, finish, drop_cell, set_cell. cbn [cells].
    rewrite lookup_drop_other by congruence.
    rewrite lookup_assign_other by congruence. now apply Hc.
  - eexists. apply get_finish.
  - unfold get, finish, drop_cell. cbn [cells]. apply lookup_drop_same.
Qed.

(** X5. Parcels that carry the same identifier get the same score: the
    group minimum is merged back by identifier, not by parcel. *)
Theorem shared_identifier_shares_score
        (col : string) (gdf0 : GeoDataFrame) (m : Matrix) (d : distance)
        (i j : nat) (ri rj : Row) :
  nth_error (rows (ensure_unique_id gdf0)) i = Some ri ->
  nth_error (rows (ensure_unique_id gdf0)) j = Some rj ->
  get "unique_id" ri = get "unique_id" rj ->
  compat_score_of (score_parcels col gdf0 m d) i =
  compat_score_of (score_parcels col gdf0 m d) j.
Proof.
  intros Hi Hj Hid. destruct (score_parcels col gdf0 m d) as [out|e] eqn:Hrun;
    [|reflexivity].
  destruct (score_parcels_returns _ _ _ _ _ Hrun) as (_ & -> & _).
  rewrite (compat_score_of_table _ _ _ _ _ _ Hi),
          (compat_score_of_table _ _ _ _ _ _ Hj).
  unfold attached. now rewrite Hid.
Qed.

(** X6. A parcel whose identifier is missing gets the default 5 whatever its
    neighbours are: the grouping drops missing keys. *)
Theorem missing_identifier_scores_five
        (col : string) (gdf0 : GeoDataFrame) (m : Matrix) (d : distance)
        (out : GeoDataFrame) (i : nat) (r : Row) :
  score_parcels col gdf0 m d = Ok out ->
  nth_error (rows (ensure_unique_id gdf0)) i = Some r ->
  get "unique_id" r = VNull ->
  compat_score_of (Ok out) i = Some 5.
Proof.
  intros Hrun Hr Hid.
  destruct (score_parcels_returns _ _ _ _ _ Hrun) as (_ & -> & _).
  rewrite (compat_score_of_table _ _ _ _ _ _ Hr).
  unfold attached. rewrite Hid. reflexivity.
Qed.

Lemma rescoring_raises (col : string) (g : GeoDataFrame) (m : Matrix)
      (d : distance) :
  has_column "compat_score" g = true ->
  scoring_stage col g m d =
  Raise (if lookup_keys_conflict col (ensure_unique_id g) m d
         then ValueError else KeyError).
Proof.
  intros Hg. unfold scoring_stage.
  destruct (lookup_keys_conflict _ _ _ _); [reflexivity|].
  unfold score_parcels. cbv zeta.
  rewrite (has_column_ensure "compat_score") by discriminate.
  now rewrite Hg.
Qed.

(** X9. The scored table cannot be scored again: it carries a
    [compat_score] column, so a second run on it never returns.  It raises
    [KeyError] where the merged column is read, unless the lookup merge
    has already refused its keys with [ValueError]; with string class
    labels on both sides it is [KeyError].  A whole run on it, when its CRS
    step goes through, ends the same way. *)
Theorem scoring_the_output_raises
        (col : string) (gdf0 : GeoDataFrame) (m : Matrix) (d : distance)
        (out : GeoDataFrame) :
  scoring_stage col gdf0 m d = Ok out ->
  forall col' m' d',
    (exists e, scoring_stage col' out m' d' = Raise e /\
               (e = ValueError \/ e = KeyError)) /\
    (text_keys col' out m' = true ->
     scoring_stage col' out m' d' = Raise KeyError) /\
    (has_column col' out = true -> crs_usable out = true ->
     (exists e, snd (run_analysis (Some out) (Some m') col' d') = Raised e /\
                (e = ValueError \/ e = KeyError)) /\
     (text_keys col' out m' = true ->
      snd (run_analysis (Some out) (Some m') col' d') = Raised KeyError)).
Proof.
  intros Hrun col' m' d'. apply scoring_stage_returns in Hrun.
  destruct (score_parcels_returns _ _ _ _ _ Hrun) as (_ & -> & _).
  set (out := scored_table col gdf0 m d).
  assert (Hc : has_column "compat_score" out = true).
  { apply has_column_in. unfold out, scored_table. cbn [columns].
    apply filter_In. split; [|reflexivity].
    apply in_app_iff. right. now left. }
  assert (Hc' : has_column "compat_score" (snd (check_crs out)) = true)
    by now rewrite has_column_check_crs.
  split; [|split].
  - rewrite (rescoring_raises _ _ _ _ Hc).
    destruct (lookup_keys_conflict _ _ _ _); eauto.
  - intros Ht. rewrite (rescoring_raises _ _ _ _ Hc).
    now rewrite (lookup_keys_conflict_text _ _ _ _ Ht).
  - intros Hcol _. unfold run_analysis. rewrite Hcol. cbn [negb]. cbv zeta.
    rewrite (rescoring_raises _ _ _ _ Hc'). cbn [snd]. split.
    + destruct (lookup_keys_conflict _ _ _ _); eauto.
    + intros Ht. rewrite <- text_keys_check_crs in Ht.
      now rewrite (lookup_keys_conflict_text _ _ _ _ Ht).
Qed.




Lemma scored_rows_shape
      (col : string) (gdf0 : GeoDataFrame) (m : Matrix) (d : distance)
      (out : GeoDataFrame) :
  score_parcels col gdf0 m d = Ok out ->
  Forall2 (fun r_in r_out => exists z, get "compat_score" r_out = VInt z)
          (rows gdf0) (rows out).
Proof.
  intros Hrun.
  destruct (score_parcels_returns _ _ _ _ _ Hrun) as (_ & -> & _).
  unfold scored_table. cbn [rows].
  pose proof (ensure_rows_follow gdf0) as H.
  induction H as [|r r' t t' _ _ IH]; simpl; constructor; [|exact IH].
  eexists. apply get_finish.
Qed.

(* ---------------------------------------------------------------- *)
(** ** Aggregation and the order of the pairs *)

Lemma group_scores_perm (sp sp' : list ScoredPair) (k : value) (o : option Q) :
  Permutation sp sp' -> In o (group_scores sp k) -> In o (group_scores sp' k).
Proof.
  unfold group_scores. intros Hp Hin. apply in_map_iff in Hin.
  destruct Hin as (p & Ho & Hin). apply filter_In in Hin.
  destruct Hin as [Hin Hk]. apply in_map_iff. exists p. split; [exact Ho|].
  apply filter_In. split; [|exact Hk]. eapply Permutation_in; eassumption.
Qed.

Lemma min_skipna_same_members (l l' : list (option Q)) :
  (forall o, In o l <-> In o l') ->
  Qred (fillna 5 (min_skipna l)) = Qred (fillna 5 (min_skipna l')).
Proof.
  intros H. destruct (min_skipna l) as [a|] eqn:Ea,
                     (min_skipna l') as [b|] eqn:Eb; simpl.
  - apply Qred_complete.
    apply min_skipna_some in Ea, Eb. destruct Ea as [Ha Hla], Eb as [Hb Hlb].
    apply Qle_antisym; [apply Hla, H, Hb | apply Hlb, H, Ha].
  - exfalso. apply min_skipna_some in Ea. destruct Ea as [Ha _].
    exact (proj1 (min_skipna_none l') Eb a (proj1 (H _) Ha)).
  - exfalso. apply min_skipna_some in Eb. destruct Eb as [Hb _].
    exact (proj1 (min_skipna_none l) Ea b (proj2 (H _) Hb)).
  - reflexivity.
Qed.

(** X7. The scores do not depend on the order in which the spatial join and
    the merges list the pairs: a permutation of the scored pairs gives every
    parcel the same finished row. *)
Theorem aggregation_ignores_pair_order
        (sp sp' : list ScoredPair) (rs : list Row) :
  Permutation sp sp' -> map (finish sp) rs = map (finish sp') rs.
Proof.
  intros Hp. apply map_ext. intros r. unfold finish. do 4 f_equal.
  unfold attached. destruct (notnull (get "unique_id" r)); [|reflexivity].
  apply min_skipna_same_members. intros o. split; apply group_scores_perm;
    [exact Hp | now symmetry].
Qed.

(* ---------------------------------------------------------------- *)
(** ** What a run leaves behind *)

(** X10. No partial output: a run exports the scored table and saves the
    reports exactly when it completes; a run that raises has written
    nothing, and a run that aborts has moreover done no geometric work. *)
Theorem no_partial_output
        (parcels : option GeoDataFrame) (matrix : option Matrix)
        (col : string) (d : distance) :
  (In Exported (fst (run_analysis parcels matrix col d)) <->
   exists out rep, snd (run_analysis parcels matrix col d) = Completed out rep) /\
  (In ReportsSaved (fst (run_analysis parcels matrix col d)) <->
   exists out rep, snd (run_analysis parcels matrix col d) = Completed out rep) /\
  (snd (run_analysis parcels matrix col d) = Aborted ->
   existsb geometric (fst (run_analysis parcels matrix col d)) = false).
Proof.
  unfold run_analysis, check_crs.
  destruct parcels as [gdf|]; [|cbn; intuition; firstorder discriminate].
  destruct (has_column col gdf); cbn [negb];
    [|cbn; intuition; firstorder discriminate].
  cbv zeta.
  destruct (crs gdf) as [c|]; [destruct (is_geographic c)|];
    cbn [fst snd];
    (destruct matrix as [m|]; [|cbn; intuition; firstorder discriminate]);
    destruct (scoring_stage _ _ _ _) as [out|e]; cbn;
    (split; [|split]);
    try (intros; discriminate);
    try (split; [intros _; eauto | intros _; tauto]);
    try (split; [intuition discriminate | intros (o & rp & H); discriminate]).
Qed.

(** X11. A completed run never delivers a table in geographic coordinates:
    its CRS is the input's when that is undefined or projected, and the
    estimated UTM zone otherwise. *)
Theorem completed_crs_is_not_geographic
        (parcels : option GeoDataFrame) (matrix : option Matrix)
        (col : string) (d : distance)
        (log : list event) (out : GeoDataFrame) (rep : Reports) :
  run_analysis parcels matrix col d = (log, Completed out rep) ->
  (forall c, crs out = Some c -> is_geographic c = false) /\
  (forall gdf, parcels = Some gdf -> (crs out = None <-> crs gdf = None)) /\
  rep = generate_reports out col.
Proof.
  unfold run_analysis. destruct parcels as [gdf|]; [|discriminate].
  destruct (has_column col gdf); cbn [negb]; [|discriminate]. cbv zeta.
  destruct matrix as [m|]; [|discriminate].
  destruct (scoring_stage _ _ _ _) as [o|e] eqn:Hrun; [|discriminate].
  intros H. inversion H. subst o rep. clear H.
  apply scoring_stage_returns in Hrun.
  destruct (score_parcels_returns _ _ _ _ _ Hrun) as (_ & -> & _).
  unfold scored_table, check_crs. cbn [crs].
  split; [|split; [|reflexivity]].
  - intros c. destruct (crs gdf) as [c0|] eqn:Hc; cbn.
    + destruct (is_geographic c0) eqn:Hg; cbn.
      * intros E. inversion E. reflexivity.
      * rewrite Hc. intros E. inversion E. now subst.
    + rewrite Hc. discriminate.
  - intros g E. inversion E. subst g.
    destruct (crs gdf) as [c0|] eqn:Hc; cbn.
    + destruct (is_geographic c0); cbn; [|rewrite Hc]; split; discriminate.
    + rewrite Hc. tauto.
Qed.

(* ---------------------------------------------------------------- *)
(** ** Counting in the reports *)

Lemma total_map_add {A : Type} (f g : A -> Z) (l : list A) :
  total (map (fun x => f x + g x) l) = total (map f l) + total (map g l).
Proof. unfold total. induction l as [|x t IH]; simpl; lia. Qed.

Lemma indicator_total {K : Type} (eqb : K -> K -> bool) (x : K) (keys : list K) :
  (forall a b, eqb a b = true <-> a = b) -> NoDup keys -> In x keys ->
  total (map (fun k => if eqb x k then 1 else 0) keys) = 1.
Proof.
  intros Heq Hnd. unfold total. induction Hnd as [|k t Hnot Hnd IH]; intros Hin;
    [destruct Hin|]. simpl.
  assert (Hzero : forall l, ~ In x l ->
                            fold_right Z.add 0
                              (map (fun k => if eqb x k then 1 else 0) l) = 0).
  { induction l as [|y u IHu]; simpl; intros Hn; [reflexivity|].
    destruct (eqb x y) eqn:E.
    - apply Heq in E. subst y. exfalso. apply Hn. now left.
    - rewrite IHu; [reflexivity|]. intros H. apply Hn. now right. }
  destruct (eqb x k) eqn:E.
  - apply Heq in E. subst k. rewrite (Hzero t Hnot). reflexivity.
  - destruct Hin as [->|Hin].
    + rewrite (proj2 (Heq x x) eq_refl) in E. discriminate.
    + rewrite (IH Hin). reflexivity.
Qed.

(** Counting the rows under each key of a duplicate-free list that holds
    every key counts every row once. *)
Lemma partition_total {K A : Type} (eqb : K -> K -> bool) (key : A -> K)
      (keys : list K) (l : list A) :
  (forall a b, eqb a b = true <-> a = b) -> NoDup keys ->
  (forall a, In a l -> In (key a) keys) ->
  total (map (fun x => Z.of_nat (List.length
                                   (filter (fun a => eqb (key a) x) l))) keys)
  = Z.of_nat (List.length l).
Proof.
  intros Heq Hnd. induction l as [|a t IH]; intros Hcov.
  - cbn [filter List.length]. unfold total. clear Hnd Hcov.
    induction keys as [|k u IHk]; simpl; [reflexivity | exact IHk].
  - transitivity (total (map (fun x => (if eqb (key a) x then 1 else 0) +
                                       Z.of_nat (List.length
                                         (filter (fun a => eqb (key a) x) t)))
                             keys)).
    + f_equal. apply map_ext. intros x. cbn [filter].
      destruct (eqb (key a) x); cbn [List.length]; lia.
    + rewrite total_map_add, IH, (indicator_total eqb (key a) keys Heq Hnd).
      * cbn [List.length]. lia.
      * apply Hcov. now left.
      * intros a' Ha'. apply Hcov. now right.
Qed.

Lemma filter_filter {A : Type} (p q : A -> bool) (l : list A) :
  filter (fun a => p a && q a) l = filter q (filter p l).
Proof.
  induction l as [|a t IH]; simpl; [reflexivity|].
  destruct (p a); simpl; [destruct (q a)|]; now rewrite IH.
Qed.

Lemma score_columns_NoDup (col : string) (gdf : GeoDataFrame) :
  NoDup (score_columns (detailed_breakdown col gdf)).
Proof.
  unfold detailed_breakdown. cbn [score_columns].
  eapply Permutation_NoDup; [symmetry; apply sort_by_perm|].
  apply ensure_columns_NoDup.
  eapply Permutation_NoDup; [symmetry; apply sort_by_perm|].
  apply (NoDup_distinct Z.eqb Z_eqb_eq).
Qed.

(** X13. The detailed breakdown counts every classified parcel exactly once:
    each land use that occurs has one line, the total of a line is the
    number of classified parcels of that land use, and the totals add up
    to the number of classified parcels. *)
Theorem breakdown_counts_each_parcel_once (col : string) (gdf : GeoDataFrame) :
  let lines := breakdown_rows (detailed_breakdown col gdf) in
  NoDup (map (fun line => fst (fst line)) lines) /\
  (forall u, In u (map (fun line => fst (fst line)) lines) <->
             In u (map fst (classified col gdf))) /\
  (forall line, In line lines ->
     snd line = Z.of_nat (List.length
                  (filter (fun k => value_eqb (fst k) (fst (fst line)))
                          (classified col gdf)))) /\
  total (map snd lines) = Z.of_nat (List.length (classified col gdf)).
Proof.
  cbv zeta. unfold detailed_breakdown. cbn [breakdown_rows].
  fold (score_columns (detailed_breakdown col gdf)).
  set (keyed := classified col gdf).
  set (classes := sort_by value_leb (distinct value_eqb (map fst keyed))).
  assert (Hclasses : NoDup classes).
  { eapply Permutation_NoDup; [symmetry; apply sort_by_perm|].
    apply (NoDup_distinct value_eqb value_eqb_eq). }
  assert (Hin : forall u, In u classes <-> In u (map fst keyed)).
  { intros u. unfold classes. split; intros H.
    - apply (Permutation_in _ (sort_by_perm _ _)) in H.
      exact (proj1 (in_distinct value_eqb value_eqb_eq _ _) H).
    - apply (Permutation_in _ (Permutation_sym (sort_by_perm _ _))).
      exact (proj2 (in_distinct value_eqb value_eqb_eq _ _) H). }
  assert (Hline : forall u,
             fold_right Z.add 0
               (map (fun s => Z.of_nat (List.length
                        (filter (fun k => value_eqb (fst k) u && Z.eqb (snd k) s)
                                keyed)))
                    (score_columns (detailed_breakdown col gdf)))
             = Z.of_nat (List.length
                           (filter (fun k => value_eqb (fst k) u) keyed))).
  { intros u.
    rewrite <- (partition_total Z.eqb snd
                  (score_columns (detailed_breakdown col gdf))
                  (filter (fun k => value_eqb (fst k) u) keyed)
                  Z_eqb_eq (score_columns_NoDup col gdf)).
    - unfold total. f_equal. apply map_ext. intros s.
      now rewrite filter_filter.
    - intros k Hk. apply filter_In in Hk. destruct Hk as [Hk _].
      apply score_columns_in. right. now apply in_map. }
  rewrite !map_map. cbn [fst snd]. rewrite map_id.
  split; [exact Hclasses|]. split; [exact Hin|]. split.
  - intros line Hl. apply in_map_iff in Hl. destruct Hl as (u & <- & _).
    cbn [fst snd]. apply Hline.
  - rewrite <- (partition_total value_eqb fst classes keyed
                  value_eqb_eq Hclasses).
    + unfold total. f_equal. apply map_ext. intros u. apply Hline.
    + intros k Hk. apply Hin. now apply in_map.
Qed.

Lemma overall_counts_list (gdf : GeoDataFrame) :
  map parcel_count (overall_summary gdf) =
  map (fun s => Z.of_nat (count_occ Z.eq_dec (compat_scores gdf) s)) [1; 2; 3; 4; 5].
Proof.
  pose proof (overall_scores gdf) as Hs. pose proof (overall_counts gdf) as Hc.
  destruct (overall_summary gdf) as [|r1 [|r2 [|r3 [|r4 [|r5 [|r6 t]]]]]];
    try discriminate.
  inversion Hs as [[H1 H2 H3 H4 H5]]. cbn [map].
  rewrite (Hc r1), (Hc r2), (Hc r3), (Hc r4), (Hc r5), H1, H2, H3, H4, H5;
    simpl; tauto.
Qed.

Lemma count_on_scale (l : list Z) :
  total (map (fun s => Z.of_nat (count_occ Z.eq_dec l s)) [1; 2; 3; 4; 5]) =
  Z.of_nat (List.length (filter on_scale l)).
Proof.
  unfold total, on_scale. cbn [map fold_right].
  induction l as [|a t IH]; [reflexivity|]. cbn [count_occ filter].
  destruct (Z.eq_dec a 1), (Z.eq_dec a 2), (Z.eq_dec a 3), (Z.eq_dec a 4),
           (Z.eq_dec a 5);
    destruct (1 <=? a) eqn:E1, (a <=? 5) eqn:E5; cbn [andb List.length];
    try apply Z.leb_le in E1; try apply Z.leb_le in E5;
    try apply Z.leb_gt in E1; try apply Z.leb_gt in E5; lia.
Qed.

(** X12. The overall summary counts exactly the parcels whose score is on the
    scale 1..5; parcels with any other score appear in none of its rows.
    After a run whose matrix only records scores on the scale, the five
    counts add up to the number of parcels. *)
Theorem overall_counts_parcels_on_scale
        (col : string) (gdf0 : GeoDataFrame) (m : Matrix) (d : distance)
        (out : GeoDataFrame) :
  score_parcels col gdf0 m d = Ok out ->
  total (map parcel_count (overall (generate_reports out col))) =
  Z.of_nat (List.length (filter on_scale (compat_scores out))) /\
  ((forall a b s, matrix_maps m a b s -> (1 <= s /\ s <= 5)%Q) ->
   total (map parcel_count (overall (generate_reports out col))) =
   Z.of_nat (List.length (rows gdf0))).
Proof.
  intros Hrun. cbn [generate_reports overall].
  rewrite overall_counts_list, count_on_scale. split; [reflexivity|].
  intros Hscale. f_equal.
  assert (Hall : forall i z, compat_score_of (Ok out) i = Some z ->
                             on_scale z = true).
  { intros i z Hz.
    destruct (returned_score_cases _ _ _ _ _ _ _ Hrun Hz) as [_ H].
    specialize (H Hscale). unfold on_scale.
    apply andb_true_iff. split; apply Z.leb_le; lia. }
  pose proof (scored_rows_shape _ _ _ _ _ Hrun) as Hrows.
  unfold compat_score_of in Hall. unfold compat_scores.
  clear Hrun. revert Hall. induction Hrows as [|r r' t t' [z Hz] _ IH];
    intros Hall; [reflexivity|].
  cbn [flat_map]. rewrite Hz. cbn [app filter].
  rewrite (Hall 0%nat z) by (cbn; now rewrite Hz).
  cbn [List.length]. f_equal. apply IH.
  intros i z' Hi. apply (Hall (S i)). exact Hi.
Qed.

(* ---------------------------------------------------------------- *)
(** ** Widening the adjacency distance *)

Section Widening.
(** Modelled from the spec: buffers grow with the distance (4.1 of the
    specification, the buffer is an expansion by the distance); [buffer] is
    geopandas code and not part of the repository. *)
Variable closer : distance -> distance -> Prop.

Hypothesis buffer_grows :
  forall a b d d', closer d d' ->
                   intersects a (buffer b d) = true ->
                   intersects a (buffer b d') = true.

Lemma resolved_score_grows (col : string) (gdf : GeoDataFrame) (m : Matrix)
      (d d' : distance) (r : Row) (s : Q) :
  closer d d' ->
  resolved_score col gdf m d r s -> resolved_score col gdf m d' r s.
Proof.
  intros Hd (r' & Hnb & Hm). exists r'. split; [|exact Hm].
  unfold spec_neighbours in *. apply filter_In in Hnb. destruct Hnb as [Hin Hc].
  apply andb_true_iff in Hc. destruct Hc as [Hint Hne].
  apply filter_In. split; [exact Hin|].
  now rewrite (buffer_grows _ _ _ _ Hd Hint), Hne.
Qed.

(** X8. With class labels that are strings in the parcels and in the
    matrix, and a matrix that records no score above 5, widening the
    adjacency distance never raises the score of a parcel: new neighbours
    can only lower the minimum, and the default is the largest score. *)
Theorem wider_distance_never_raises_a_score
        (col : string) (gdf0 : GeoDataFrame) (m : Matrix) (d d' : distance)
        (i : nat) (r : Row) :
  closer d d' ->
  unique_ids gdf0 = true -> matrix_integral m = true ->
  has_column "compat_score" gdf0 = false ->
  text_keys col gdf0 m = true ->
  (forall a b s, matrix_maps m a b s -> (s <= 5)%Q) ->
  nth_error (rows (ensure_unique_id gdf0)) i = Some r ->
  exists z z',
    compat_score_of (scoring_stage col gdf0 m d) i = Some z /\
    compat_score_of (scoring_stage col gdf0 m d') i = Some z' /\
    z' <= z.
Proof.
  intros Hd Hu Hm Hc Ht Hmax Hr.
  rewrite !(scoring_stage_text _ _ _ _ Ht).
  rewrite (compat_score_of_ok col gdf0 m d i r Hc Hm Hr),
          (compat_score_of_ok col gdf0 m d' i r Hc Hm Hr).
  do 2 eexists. split; [reflexivity|]. split; [reflexivity|].
  destruct (integral_cast _ (attached_integral
                               col (ensure_unique_id gdf0) m d r Hm)) as [_ E].
  destruct (integral_cast _ (attached_integral
                               col (ensure_unique_id gdf0) m d' r Hm)) as [_ E'].
  rewrite Zle_Qle, E, E'. clear E E'.
  pose proof (nth_error_In _ _ Hr) as Hin.
  destruct (unique_ids_NoDup _ Hu) as [_ Hnn].
  unfold attached. rewrite (Hnn r Hin).
  destruct (min_skipna (group_scores (run_scored_pairs col _ m d') _))
    as [b|] eqn:Eb;
    destruct (min_skipna (group_scores (run_scored_pairs col _ m d) _))
    as [a|] eqn:Ea; cbn [fillna].
  - apply min_skipna_some in Ea, Eb. destruct Ea as [Ha _], Eb as [_ Hb].
    apply Hb. apply group_resolved; [exact Hu | exact Hin|].
    apply (resolved_score_grows col _ m d d' r a Hd).
    now apply group_resolved.
  - apply min_skipna_some in Eb. destruct Eb as [Hb _].
    apply group_resolved in Hb; [|exact Hu | exact Hin].
    destruct Hb as (r' & _ & Hmaps). exact (Hmax _ _ _ Hmaps).
  - exfalso. apply min_skipna_some in Ea. destruct Ea as [Ha _].
    apply (proj1 (min_skipna_none _) Eb a).
    apply group_resolved; [exact Hu | exact Hin|].
    apply (resolved_score_grows col _ m d d' r a Hd).
    now apply group_resolved.
  - apply Qle_refl.
Qed.
End Widening.

End Further.

(* ================================================================== *)
(** ** Output names *)

Lemma append_cancel (s a b : string) :
  String.append s a = String.append s b -> a = b.
Proof.
  induction s as [|c s IH]; simpl; intros H; [exact H|].
  inversion H. now apply IH.
Qed.

(** X14. The outputs of a run always have a usable name: the base name is
    never empty, a non-empty [base_name] argument is used as it is, the
    input stem is used only when no name is given, and the GeoPackage and
    the two CSV reports have three different file names. *)
Theorem output_names_are_usable
        (base_name : option string) (parcels_exist : bool) (stem : string) :
  choose_base base_name parcels_exist stem <> "" /\
  (forall given, base_name = Some given -> given <> "" ->
                 choose_base base_name parcels_exist stem = given) /\
  ((base_name = None \/ base_name = Some "") ->
   parcels_exist = true -> stem <> "" ->
   choose_base base_name parcels_exist stem = stem) /\
  (let names := output_names (choose_base base_name parcels_exist stem) in
   geopackage_name names <> overall_name names /\
   geopackage_name names <> detailed_name names /\
   overall_name names <> detailed_name names).
Proof.
  assert (Hfallback :
            (if parcels_exist && negb (String.eqb stem "")
             then stem else "Qazvin_processed") <> "").
  { destruct parcels_exist; simpl; [|discriminate].
    destruct (String.eqb stem "") eqn:E; simpl; [discriminate|].
    now apply String.eqb_neq. }
  split; [|split; [|split]].
  - unfold choose_base. destruct base_name as [[|a rest]|];
      [exact Hfallback | discriminate | exact Hfallback].
  - intros given -> Hne. unfold choose_base. destruct given; [contradiction|].
    reflexivity.
  - intros Hnone -> Hstem. unfold choose_base.
    apply String.eqb_neq in Hstem.
    destruct Hnone as [-> | ->]; simpl; now rewrite Hstem.
  - cbv zeta. unfold output_names. cbn [geopackage_name overall_name detailed_name].
    repeat split; intros H; apply append_cancel in H; discriminate.
Qed.

(* ================================================================== *)
(** ** Runs on the concrete parcel sets *)

Import Samples.

(** The scenarios of the specification. *)
Example scenario_adjacent :
  compat_score_of (score_parcels "KARBARI_MO" scenario scenario_matrix 10) 0
  = Some 1 /\
  compat_score_of (score_parcels "KARBARI_MO" scenario scenario_matrix 10) 1
  = Some 1.
Proof. split; reflexivity. Qed.

Example scenario_apart :
  compat_score_of (score_parcels "KARBARI_MO" scenario scenario_matrix 1) 0
  = Some 5 /\
  compat_score_of (score_parcels "KARBARI_MO" scenario scenario_matrix 1) 1
  = Some 5.
Proof. split; reflexivity. Qed.

(** Resolved scores 5, 3 and 4 give 3; an unknown pair beside a pair that
    scores 2 gives 2. *)
Example worst_case_of_three :
  compat_score_of (score_parcels "KARBARI_MO" star star_matrix 10) 0 = Some 3.
Proof. reflexivity. Qed.

Example unresolved_pair_is_skipped :
  compat_score_of (score_parcels "KARBARI_MO" three partial_matrix 10) 0 = Some 2.
Proof. reflexivity. Qed.

Ltac pick_index i :=
  destruct i as [|[|[|i]]]; cbn in *; try discriminate.



Lemma lookup_is_directional_witness :
  (forall p s,
      In p (run_scored_pairs "KARBARI_MO" (ensure_unique_id scenario)
                             directional_matrix 10) ->
      score p = Some s ->
      matrix_maps directional_matrix (use_left (adj (uses p)))
                  (use_right (uses p)) s) /\
  compat_score_of (score_parcels "KARBARI_MO" scenario directional_matrix 10) 0
  = Some 1 /\
  compat_score_of (score_parcels "KARBARI_MO" scenario directional_matrix 10) 1
  = Some 4.
Proof.
  apply (lookup_is_directional
           "KARBARI_MO" scenario directional_matrix 10 0%nat 1%nat
           residential industrial 1 4);
    [reflexivity | reflexivity | reflexivity | reflexivity | reflexivity
     | reflexivity | reflexivity | |].
  - split.
    + exists (inject_Z 1), 0%nat, 1%nat. repeat split.
    + intros s (i & j & Hi & Hj & Hc). pick_index i; pick_index j.
      inversion Hc. reflexivity.
  - split.
    + exists (inject_Z 4), 1%nat, 0%nat. repeat split.
    + intros s (i & j & Hi & Hj & Hc). pick_index i; pick_index j.
      inversion Hc. reflexivity.
Defined.

Lemma blank_cell_is_unresolved_witness :
  (forall a b, blank_pair blank_matrix a b \/ absent_pair blank_matrix a b ->
               unresolved blank_matrix a b) /\
  (forall p, In p (run_scored_pairs "KARBARI_MO" (ensure_unique_id scenario)
                                    blank_matrix 10) ->
             blank_pair blank_matrix (use_left (adj (uses p)))
                        (use_right (uses p)) \/
             absent_pair blank_matrix (use_left (adj (uses p)))
                         (use_right (uses p)) ->
             score p = None) /\
  (forall s, ~ resolved_score "KARBARI_MO" (ensure_unique_id scenario)
                              blank_matrix 10 residential s) /\
  compat_score_of (scoring_stage "KARBARI_MO" scenario blank_matrix 10) 0 = Some 5.
Proof.
  apply (blank_cell_is_unresolved
           "KARBARI_MO" scenario blank_matrix 10 0%nat residential);
    [reflexivity | reflexivity | reflexivity | reflexivity | reflexivity |].
  intros r' H. vm_compute in H. destruct H as [<-|[]]. split.
  - exists 0%nat, 1%nat. split; reflexivity.
  - intros i j Hi Hj. pick_index i; pick_index j. reflexivity.
Defined.

(** The pair that hits the blank cell is in the scored pairs, with a
    missing score; the reverse pair scores 2. *)
Example blank_pair_is_scored_missing :
  map score (run_scored_pairs "KARBARI_MO" (ensure_unique_id scenario)
                              blank_matrix 10)
  = [None; Some (inject_Z 2)].
Proof. reflexivity. Qed.

(** Both directions of the scenario's pair are found. *)
Example scenario_pairs :
  pair_present (adjacent_pairs "KARBARI_MO" (ensure_unique_id scenario) 10)
               (VInt 0) (VInt 1) = true /\
  pair_present (adjacent_pairs "KARBARI_MO" (ensure_unique_id scenario) 10)
               (VInt 1) (VInt 0) = true.
Proof. split; reflexivity. Qed.

Lemma integer_matrix_never_raises_witness :
  (exists out, scoring_stage "KARBARI_MO" scenario wide_matrix 10 = Ok out /\
               List.length (rows out) = List.length (rows scenario)) /\
  (crs_usable scenario = true ->
   forall e, snd (run_analysis (Some scenario) (Some wide_matrix)
                               "KARBARI_MO" 10) <> Raised e).
Proof.
  apply (integer_matrix_never_raises "KARBARI_MO" scenario wide_matrix 10);
    reflexivity.
Defined.

(** C8, as stated, fails: a score that is not an integer reaches the cast
    to Int64, which raises [TypeError]; and a matrix of integer scores
    whose row labels are numbers is refused by the lookup merge, which
    raises [ValueError], as soon as there is a pair to look up. *)
Lemma scoring_can_raise :
  (scoring_stage "KARBARI_MO" scenario fractional_matrix 10 = Raise TypeError /\
   snd (run_analysis (Some scenario) (Some fractional_matrix) "KARBARI_MO" 10)
   = Raised TypeError) /\
  (matrix_integral numbered_matrix = true /\
   scoring_stage "KARBARI_MO" scenario numbered_matrix 10 = Raise ValueError /\
   snd (run_analysis (Some scenario) (Some numbered_matrix) "KARBARI_MO" 10)
   = Raised ValueError).
Proof. repeat split; reflexivity. Qed.

(** Without a pair to look up the same matrix is accepted, and every
    parcel gets the default. *)
Example numbered_matrix_without_pairs :
  map (compat_score_of (scoring_stage "KARBARI_MO" scenario numbered_matrix 1))
      [0; 1]%nat
  = [Some 5; Some 5].
Proof. reflexivity. Qed.

(** C5, as stated, fails: scores outside 1..5 add columns to the detailed
    breakdown. *)
Lemma detailed_breakdown_has_seven_columns :
  exists log out rep,
    run_analysis (Some scenario) (Some wide_matrix) "KARBARI_MO" 10
    = (log, Completed out rep) /\
    score_columns (detailed rep) = [0; 1; 2; 3; 4; 5; 7] /\
    List.length (score_columns (detailed rep)) <> 5%nat.
Proof.
  do 3 eexists. split; [vm_compute; reflexivity|].
  split; [reflexivity | discriminate].
Qed.





Lemma scored_table_keeps_attributes_witness :
  exists log out,
    run_analysis (Some scenario) (Some directional_matrix) "KARBARI_MO" 10 =
    (log, Completed out (generate_reports out "KARBARI_MO")) /\
    columns out = columns scenario ++ ["compat_score"] /\
    Forall2 (fun r_in r_out =>
               geometry r_out = prepared_geometry scenario (geometry r_in) /\
               exists z, cells r_out = cells r_in ++ [("compat_score", VInt z)])
            (rows scenario) (rows out) /\
    ((forall c, crs scenario = Some c -> is_geographic c = false) ->
     crs out = crs scenario /\ forall g, prepared_geometry scenario g = g).
Proof.
  apply (scored_table_keeps_attributes
           "KARBARI_MO" scenario directional_matrix 10); reflexivity.
Defined.

(** C9, as stated, fails: a geographic input is exported with re-projected
    geometries, and a [unique_id] column that the parcels brought is not in
    the exported table. *)
Lemma exported_table_differs_from_input :
  (exists log out rep,
      run_analysis (Some geographic) (Some directional_matrix) "KARBARI_MO" 10
      = (log, Completed out rep) /\
      map geometry (rows out) <> map geometry (rows geographic)) /\
  (exists log out rep,
      run_analysis (Some with_ids) (Some directional_matrix) "KARBARI_MO" 10
      = (log, Completed out rep) /\
      In "unique_id" (columns with_ids) /\
      columns out = ["KARBARI_MO"; "compat_score"] /\
      map cells (rows out) =
      [[("KARBARI_MO", VStr "Residential"); ("compat_score", VInt 1)];
       [("KARBARI_MO", VStr "Industrial"); ("compat_score", VInt 4)]]).
Proof.
  split.
  - do 3 eexists. split; [vm_compute; reflexivity | discriminate].
  - do 3 eexists. split; [vm_compute; reflexivity|].
    split; [simpl; tauto|]. split; reflexivity.
Qed.

(* ================================================================== *)
(** ** Further runs on the concrete parcel sets *)

Lemma interval_buffer_grows (a b : Z * Z) (d d' : Z) :
  d <= d' ->
  interval_intersects a (interval_buffer b d) = true ->
  interval_intersects a (interval_buffer b d') = true.
Proof.
  unfold interval_intersects, interval_buffer.
  destruct a as [la ha], b as [lb hb]. simpl. intros Hd.
  destruct (hb <? lb) eqn:E; simpl; [tauto|].
  rewrite !andb_true_iff, !Z.leb_le. lia.
Qed.

(** With shared and missing identifiers: the isolated third parcel takes the
    score of the first, and the last, beside an industrial parcel, keeps 5. *)
Example shared_ids_scores :
  map (compat_score_of (score_parcels "KARBARI_MO" shared_ids
                                      directional_matrix 10))
      [0; 1; 2; 3]%nat
  = [Some 1; Some 4; Some 1; Some 5].
Proof. reflexivity. Qed.

Lemma no_self_pair_witness :
  pair_present (adjacent_pairs "KARBARI_MO" (ensure_unique_id scenario) 0)
               (VInt 0) (VInt 0) = false.
Proof.
  apply (no_self_pair "KARBARI_MO" (ensure_unique_id scenario) 0 (VInt 0)).
  reflexivity.
Defined.

Lemma synthesised_ids_unique_witness : unique_ids star = true.
Proof. apply (synthesised_ids_unique star). reflexivity. Defined.

Lemma score_is_default_or_recorded_witness :
  (1 = 5 \/
   exists a b s, matrix_maps directional_matrix a b s /\ (inject_Z 1 == s)%Q) /\
  ((forall a b s, matrix_maps directional_matrix a b s -> (1 <= s /\ s <= 5)%Q) ->
   1 <= 1 <= 5).
Proof.
  apply (score_is_default_or_recorded
           "KARBARI_MO" scenario directional_matrix 10
           (scored_table "KARBARI_MO" scenario directional_matrix 10) 0%nat 1);
    reflexivity.
Defined.

Lemma scored_rows_follow_parcels_witness :
  Forall2 (fun r_in r_out =>
             geometry r_out = geometry r_in /\
             (forall c, c <> "unique_id" -> c <> "compat_score" ->
                        get c r_out = get c r_in) /\
             (exists z, get "compat_score" r_out = VInt z) /\
             get "unique_id" r_out = VNull)
          (rows shared_ids)
          (rows (scored_table "KARBARI_MO" shared_ids directional_matrix 10)).
Proof.
  apply (scored_rows_follow_parcels
           "KARBARI_MO" shared_ids directional_matrix 10).
  reflexivity.
Defined.

Lemma shared_identifier_shares_score_witness :
  compat_score_of (score_parcels "KARBARI_MO" shared_ids directional_matrix 10) 0 =
  compat_score_of (score_parcels "KARBARI_MO" shared_ids directional_matrix 10) 2.
Proof.
  apply (shared_identifier_shares_score
           "KARBARI_MO" shared_ids directional_matrix 10 0%nat 2%nat
           (identified 0 100 "Residential" (VInt 7))
           (identified 1000 1100 "Residential" (VInt 7))); reflexivity.
Defined.

Lemma missing_identifier_scores_five_witness :
  compat_score_of
    (Ok (scored_table "KARBARI_MO" shared_ids directional_matrix 10)) 3
  = Some 5.
Proof.
  apply (missing_identifier_scores_five
           "KARBARI_MO" shared_ids directional_matrix 10
           (scored_table "KARBARI_MO" shared_ids directional_matrix 10) 3%nat
           (identified 205 300 "Residential" VNull)); reflexivity.
Defined.

Lemma scoring_the_output_raises_witness :
  (exists e, scoring_stage "KARBARI_MO"
               (scored_table "KARBARI_MO" scenario scenario_matrix 10)
               numbered_matrix 10 = Raise e /\
             (e = ValueError \/ e = KeyError)) /\
  (text_keys "KARBARI_MO"
             (scored_table "KARBARI_MO" scenario scenario_matrix 10)
             numbered_matrix = true ->
   scoring_stage "KARBARI_MO"
     (scored_table "KARBARI_MO" scenario scenario_matrix 10)
     numbered_matrix 10 = Raise KeyError) /\
  (has_column "KARBARI_MO"
              (scored_table "KARBARI_MO" scenario scenario_matrix 10) = true ->
   crs_usable (scored_table "KARBARI_MO" scenario scenario_matrix 10) = true ->
   (exists e, snd (run_analysis
                     (Some (scored_table "KARBARI_MO" scenario scenario_matrix 10))
                     (Some numbered_matrix) "KARBARI_MO" 10) = Raised e /\
              (e = ValueError \/ e = KeyError)) /\
   (text_keys "KARBARI_MO"
              (scored_table "KARBARI_MO" scenario scenario_matrix 10)
              numbered_matrix = true ->
    snd (run_analysis
           (Some (scored_table "KARBARI_MO" scenario scenario_matrix 10))
           (Some numbered_matrix) "KARBARI_MO" 10) = Raised KeyError)).
Proof.
  apply (scoring_the_output_raises
           "KARBARI_MO" scenario scenario_matrix 10
           (scored_table "KARBARI_MO" scenario scenario_matrix 10)).
  reflexivity.
Defined.

(** Scored again with the matrix it was scored with, the table raises
    [KeyError]; with the numbered matrix the merge raises first. *)
Example second_run_raises :
  scoring_stage "KARBARI_MO"
    (scored_table "KARBARI_MO" scenario scenario_matrix 10)
    scenario_matrix 10 = Raise KeyError /\
  scoring_stage "KARBARI_MO"
    (scored_table "KARBARI_MO" scenario scenario_matrix 10)
    numbered_matrix 10 = Raise ValueError.
Proof. split; reflexivity. Qed.

Lemma aggregation_ignores_pair_order_witness :
  map (finish (run_scored_pairs "KARBARI_MO" (ensure_unique_id star)
                                star_matrix 10))
      (rows (ensure_unique_id star)) =
  map (finish (rev (run_scored_pairs "KARBARI_MO" (ensure_unique_id star)
                                     star_matrix 10)))
      (rows (ensure_unique_id star)).
Proof.
  apply (aggregation_ignores_pair_order
           (run_scored_pairs "KARBARI_MO" (ensure_unique_id star) star_matrix 10)).
  apply Permutation_rev.
Defined.

Lemma completed_crs_is_not_geographic_witness :
  (forall c, crs (scored_table "KARBARI_MO" (reproject geographic)
                               scenario_matrix 10) = Some c ->
             is_geographic c = false) /\
  (forall gdf, Some geographic = Some gdf ->
               (crs (scored_table "KARBARI_MO" (reproject geographic)
                                  scenario_matrix 10) = None <->
                crs gdf = None)) /\
  generate_reports (scored_table "KARBARI_MO" (reproject geographic)
                                 scenario_matrix 10) "KARBARI_MO" =
  generate_reports (scored_table "KARBARI_MO" (reproject geographic)
                                 scenario_matrix 10) "KARBARI_MO".
Proof.
  apply (completed_crs_is_not_geographic
           (Some geographic) (Some scenario_matrix) "KARBARI_MO" 10
           (complete_log "KARBARI_MO" geographic 10)).
  reflexivity.
Defined.

Lemma overall_counts_parcels_on_scale_witness :
  total (map parcel_count
             (overall (generate_reports
                         (scored_table "KARBARI_MO" star star_matrix 10)
                         "KARBARI_MO"))) =
  Z.of_nat (List.length
              (filter on_scale
                      (compat_scores
                         (scored_table "KARBARI_MO" star star_matrix 10)))) /\
  ((forall a b s, matrix_maps star_matrix a b s -> (1 <= s /\ s <= 5)%Q) ->
   total (map parcel_count
              (overall (generate_reports
                          (scored_table "KARBARI_MO" star star_matrix 10)
                          "KARBARI_MO"))) =
   Z.of_nat (List.length (rows star))).
Proof.
  apply (overall_counts_parcels_on_scale "KARBARI_MO" star star_matrix 10).
  reflexivity.
Defined.

(** With scores 0 and 7 no parcel is on the scale and the overall summary
    counts none, while the totals of the breakdown still count both. *)
Example off_scale_parcels_are_not_counted :
  total (map parcel_count
             (overall (generate_reports
                         (scored_table "KARBARI_MO" scenario wide_matrix 10)
                         "KARBARI_MO"))) = 0 /\
  total (map snd
             (breakdown_rows
                (detailed (generate_reports
                             (scored_table "KARBARI_MO" scenario wide_matrix 10)
                             "KARBARI_MO")))) = 2.
Proof. split; reflexivity. Qed.

Lemma wider_distance_never_raises_a_score_witness :
  exists z z',
    compat_score_of (scoring_stage "KARBARI_MO" scenario scenario_matrix 1) 0
    = Some z /\
    compat_score_of (scoring_stage "KARBARI_MO" scenario scenario_matrix 10) 0
    = Some z' /\
    z' <= z.
Proof.
  apply (wider_distance_never_raises_a_score
           (geo := interval_geometry) Z.le
           (fun a b d d' => interval_buffer_grows a b d d')
           "KARBARI_MO" scenario scenario_matrix 1 10 0%nat residential);
    [lia | reflexivity | reflexivity | reflexivity | reflexivity | | reflexivity].
  intros a b s (i & j & Hi & Hj & Hc). pick_index i; pick_index j;
    inversion Hc; discriminate.
Defined.

